(** * The YOLOX body/head/hand ONNX demo: detection pipeline

    Shallow embedding of [demo/demo_yolox_onnx.py] (class [YOLOXONNX],
    [is_parsable_to_int] and [main]) and its properties: the
    post-processing step, a call of the pipeline, the command line, the
    drawing and the frame loop.

    Numbers.  The tensors hold IEEE binary32 values.  A finite value is
    modelled by the rational it denotes, the special values (infinities,
    not-a-number) by themselves; Python integers are [Z].  [_postprocess]
    is given twice: with exact comparison and arithmetic on finite values,
    and, as [_postprocess_numpy], with the threshold cast to binary32 and
    with numpy's rounded product and quotient as parameters, of which the
    exact operations and the binary32 ones are instances. *)

From stdpp Require Import gmap list strings.
From Stdlib Require Import Ascii QArith Qpower Qround Qminmax ZArith Lia.

Open Scope Z_scope.

(** ** Exceptions and the error monad *)

Inductive exn : Type :=
| ValueError         (* int(nan) *)
| OverflowError      (* int(inf), int(-inf) *)
| ZeroDivisionError  (* Python number / 0 *)
| EngineError.       (* anything the inference engine raises *)

Inductive result (A : Type) : Type :=
| Ok (a : A)
| Raise (e : exn).
Arguments Ok {A} a.
Arguments Raise {A} e.

#[export] Instance result_ret : MRet result := fun A a => Ok a.
#[export] Instance result_bind : MBind result := fun A B f m =>
  match m with
  | Ok a => f a
  | Raise e => Raise e
  end.

(** ** numpy floats and Python numbers *)

Inductive npfloat : Type :=
| Fin (q : Q)
| PInf
| NInf
| NaN.

#[export] Instance npfloat_inhabited : Inhabited npfloat := populate NaN.

(** The value of [max(0, x)] or [min(x, W)] is one of its arguments as it is:
    the Python integer or the numpy float. *)
Inductive pynum : Type :=
| PyInt (z : Z)
| NpFloat (f : npfloat).

Definition Qlt_bool (a b : Q) : bool := negb (Qle_bool b a).

(** [x > y] for a numpy float [x]; every comparison with nan is false. *)
Definition np_gt (x : npfloat) (y : Q) : bool :=
  match x with
  | Fin q => Qlt_bool y q
  | PInf => true
  | NInf => false
  | NaN => false
  end.

(** [max(0, x)]: Python keeps the first argument unless the second is
    strictly greater. *)
Definition py_max0 (x : npfloat) : pynum :=
  if np_gt x 0 then NpFloat x else PyInt 0.

(** [min(x, w)]: Python keeps the first argument unless the second is
    strictly smaller. *)
Definition py_min (x : npfloat) (w : Z) : pynum :=
  if np_gt x (inject_Z w) then PyInt w else NpFloat x.

Definition np_neg (f : npfloat) : npfloat :=
  match f with
  | Fin q => Fin (- q)
  | PInf => NInf
  | NInf => PInf
  | NaN => NaN
  end.

(** [f * z] for a numpy float [f] and a Python integer [z], without
    rounding; [np_mul_float32] rounds. *)
Definition np_mul_int (f : npfloat) (z : Z) : npfloat :=
  match f with
  | Fin q => Fin (q * inject_Z z)
  | NaN => NaN
  | _ => if 0 <? z then f else if z <? 0 then np_neg f else NaN
  end.

(** [f / w] for a numpy float [f] and a Python integer [w], without
    rounding ([np_div_float32] rounds): a zero divisor
    gives an infinity or nan (with a warning), never an exception. *)
Definition np_div_int (f : npfloat) (w : Z) : npfloat :=
  match f with
  | Fin q =>
      if w =? 0 then
        if Qlt_bool 0 q then PInf else if Qlt_bool q 0 then NInf else NaN
      else Fin (q / inject_Z w)
  | NaN => NaN
  | _ => if w <? 0 then np_neg f else f
  end.

Definition py_mul (a : pynum) (z : Z) : pynum :=
  match a with
  | PyInt n => PyInt (n * z)
  | NpFloat f => NpFloat (np_mul_int f z)
  end.

(** [a / w]: true division.  Between two Python integers a zero divisor
    raises; the quotient is a float. *)
Definition py_truediv (a : pynum) (w : Z) : result npfloat :=
  match a with
  | PyInt n =>
      if w =? 0 then Raise ZeroDivisionError
      else Ok (Fin (inject_Z n / inject_Z w))
  | NpFloat f => Ok (np_div_int f w)
  end.

(** Truncation toward zero. *)
Definition Qtrunc (q : Q) : Z := Z.quot (Qnum q) (Z.pos (Qden q)).

(** [int(f)] *)
Definition py_int (f : npfloat) : result Z :=
  match f with
  | Fin q => Ok (Qtrunc q)
  | PInf | NInf => Raise OverflowError
  | NaN => Raise ValueError
  end.

(** ** Data *)

(** One row of the raw output tensor, [float32[N,7]]: the columns 0..6 are
    batchno, classid, score, x1, y1, x2, y2. *)
Record RawRow : Type := mkRow {
  batchno : npfloat;   (* box[0] *)
  classid : npfloat;   (* box[1] *)
  score : npfloat;     (* box[2] *)
  x1 : npfloat;        (* box[3] *)
  y1 : npfloat;        (* box[4] *)
  x2 : npfloat;        (* box[5] *)
  y2 : npfloat         (* box[6] *)
}.

(** An image: [shape[0]], [shape[1]] and the samples. *)
Record Image : Type := mkImage {
  image_height : Z;    (* image.shape[0] *)
  image_width : Z;     (* image.shape[1] *)
  pixels : list N
}.

#[export] Instance Image_inhabited : Inhabited Image := populate (mkImage 0 0 []).

(** The fields of [self] that the pipeline reads after construction. *)
Record YOLOXONNX : Type := mkYOLOX {
  class_score_th : Q;
  input_height : Z;    (* self.input_shapes[0][2] *)
  input_width : Z      (* self.input_shapes[0][3] *)
}.

(** ** [_postprocess] *)

(** [a[mask, :]]: the rows of [a] where the boolean mask is set. *)
Fixpoint mask_select {A : Type} (mask : list bool) (a : list A) : list A :=
  match mask, a with
  | b :: mask', x :: a' =>
      if b then x :: mask_select mask' a' else mask_select mask' a'
  | _, _ => []
  end.

(** A [for] loop whose body may raise. *)
Fixpoint for_each {S A : Type} (body : S -> A -> result S)
    (xs : list A) (s : S) : result S :=
  match xs with
  | [] => Ok s
  | x :: xs' => s' ← body s x; for_each body xs' s'
  end.

Definition scale (v : pynum) (image_dim model_dim : Z) : result Z :=
  r ← py_truediv (py_mul v image_dim) model_dim; py_int r.

Section postprocess.
Context (self : YOLOXONNX) (image : Image).

(** Lines 208-212: one kept row to [[x_min, y_min, x_max, y_max, class_id]]. *)
Definition row_box (box : RawRow) : result (list Z) :=
  class_id ← py_int (classid box);
  x_min ← scale (py_max0 (x1 box)) (image_width image) (input_width self);
  y_min ← scale (py_max0 (y1 box)) (image_height image) (input_height self);
  x_max ← scale (py_min (x2 box) (input_width self))
                (image_width image) (input_width self);
  y_max ← scale (py_min (y2 box) (input_height self))
                (image_height image) (input_height self);
  Ok [x_min; y_min; x_max; y_max; class_id].

(** Lines 207-218: the loop body, appending to both result lists. *)
Definition loop_body (acc : list (list Z) * list (list npfloat))
    (it : RawRow * list npfloat) : result (list (list Z) * list (list npfloat)) :=
  let '(result_boxes, result_scores) := acc in
  let '(box, score) := it in
  b ← row_box box;
  Ok (result_boxes ++ [b], result_scores ++ [score]).

(** [scores = boxes[:, 2:3]] *)
Definition scores_of (boxes : list RawRow) : list (list npfloat) :=
  (fun box => [score box]) <$> boxes.

(** [keep_idxs = scores[:, 0] > self.class_score_th], the threshold taken
    as it is; [keep_idxs_numpy] casts it to binary32 first. *)
Definition keep_idxs_of (scores : list (list npfloat)) : list bool :=
  (fun s => np_gt (s !!! 0%nat) (class_score_th self)) <$> scores.

(** [boxes_keep = boxes[keep_idxs, :]] *)
Definition boxes_keep_of (boxes : list RawRow) : list RawRow :=
  mask_select (keep_idxs_of (scores_of boxes)) boxes.

(** [scores_keep = scores[keep_idxs, :]] *)
Definition scores_keep_of (boxes : list RawRow) : list (list npfloat) :=
  mask_select (keep_idxs_of (scores_of boxes)) (scores_of boxes).

Definition _postprocess (boxes : list RawRow)
    : result (list (list Z) * list (list npfloat)) :=
  let result_boxes := [] in
  let result_scores := [] in
  if (0 <? length boxes)%nat then
    let scores := scores_of boxes in
    let keep_idxs := keep_idxs_of scores in
    let scores_keep := mask_select keep_idxs scores in
    let boxes_keep := mask_select keep_idxs boxes in
    if (0 <? length boxes_keep)%nat then
      for_each loop_body (zip boxes_keep scores_keep)
               (result_boxes, result_scores)
    else Ok (result_boxes, result_scores)
  else Ok (result_boxes, result_scores).
End postprocess.

(** ** The pipeline: [__call__] and [_preprocess]

    Images are objects that the caller and the pipeline may share, so they
    live in a store and are passed by reference.  A Python name always refers
    to a live object, so reading a reference is total. *)

Definition loc : Type := positive.

Definition M (A : Type) : Type := gmap loc Image -> result A * gmap loc Image.

#[export] Instance M_ret : MRet M := fun A a σ => (Ok a, σ).
#[export] Instance M_bind : MBind M := fun A B f m σ =>
  match m σ with
  | (Ok a, σ') => f a σ'
  | (Raise e, σ') => (Raise e, σ')
  end.

Definition lift {A : Type} (r : result A) : M A := fun σ => (r, σ).

Definition read (l : loc) : M Image := fun σ => (Ok (σ !!! l), σ).

(** [copy.deepcopy(image)]: a new object with the same contents. *)
Definition deepcopy (l : loc) : M loc := fun σ =>
  let l' := fresh (dom σ) in (Ok l', <[l' := σ !!! l]> σ).

Section pipeline.
(** The collaborators outside the repository.  [cv2_resize] is handed the
    image object itself, so it is given the power to overwrite it: it
    returns the contents it leaves in its argument and its result.  The
    others receive arrays built inside the call; [transpose] raises on an
    array that has not the three axes of [swap]. *)
Context {Tensor : Type}.
Context (cv2_resize : Image -> Z * Z -> Image * result Tensor).
Context (np_transpose : Tensor -> list nat -> result Tensor).
Context (np_ascontiguousarray : Tensor -> Tensor).
Context (np_asarray : list Tensor -> Tensor).
(** [self.onnx_session.run(self.output_names, {...})[0]] *)
Context (onnx_session_run : Tensor -> result (list RawRow)).

Context (self : YOLOXONNX).

Definition resize (image : loc) (dsize : Z * Z) : M Tensor := fun σ =>
  let '(image', r) := cv2_resize (σ !!! image) dsize in
  (r, <[image := image']> σ).

Definition _preprocess (image : loc) (swap : list nat) : M Tensor :=
  resized_image ← resize image (input_width self, input_height self);
  resized_image ← lift (np_transpose resized_image swap);
  let resized_image := np_ascontiguousarray resized_image in
  mret resized_image.

Definition postprocess_at (image : loc) (boxes : list RawRow)
    : M (list (list Z) * list (list npfloat)) :=
  img ← read image;
  lift (_postprocess self img boxes).

Definition __call__ (image : loc)
    : M (list (list Z) * list (list npfloat)) :=
  temp_image ← deepcopy image;
  resized_image ← _preprocess temp_image [2; 0; 1]%nat;
  let inferece_image := np_asarray [resized_image] in
  boxes ← lift (onnx_session_run inferece_image);
  postprocess_at temp_image boxes.
End pipeline.

(** ** Vocabulary of the statements *)

(** The test of line 202 on one row. *)
Definition above_threshold (self : YOLOXONNX) (box : RawRow) : bool :=
  np_gt (score box) (class_score_th self).

(** The bounds on one side of each coordinate. *)
Definition box_one_sided (image : Image) (b : list Z) : Prop :=
  match b with
  | [x_min; y_min; x_max; y_max; _] =>
      0 <= x_min /\ 0 <= y_min /\
      x_max <= image_width image /\ y_max <= image_height image
  | _ => False
  end.



(** What lines 209-212 compute on finite coordinates: the lower clamp alone
    for a minimum, the upper clamp alone for a maximum. *)
Definition lower_coord (v : Q) (image_dim model_dim : Z) : Z :=
  Qtrunc (Qmax 0 v * inject_Z image_dim / inject_Z model_dim).

Definition upper_coord (v : Q) (image_dim model_dim : Z) : Z :=
  Qtrunc (Qmin v (inject_Z model_dim) * inject_Z image_dim / inject_Z model_dim).

(** The rescaling in the words of the specification, section 4.3 step 4:
    clamp to [0, model_dim], multiply by image_dim / model_dim, truncate. *)
Definition Qclamp (v lo hi : Q) : Q := Qmin (Qmax lo v) hi.

Definition spec_coord (v : Q) (image_dim model_dim : Z) : Z :=
  Qtrunc (Qclamp v 0 (inject_Z model_dim)
          * inject_Z image_dim / inject_Z model_dim).

Definition spec_row_box (self : YOLOXONNX) (image : Image)
    (cid a1 b1 a2 b2 : Q) : list Z :=
  [ spec_coord a1 (image_width image) (input_width self);
    spec_coord b1 (image_height image) (input_height self);
    spec_coord a2 (image_width image) (input_width self);
    spec_coord b2 (image_height image) (input_height self);
    Qtrunc cid ].

(** A computation that writes to no object but [l']. *)
Definition writes_only {A : Type} (l' : loc) (m : M A) : Prop :=
  forall (σ : gmap loc Image) (l : loc), l <> l' -> (m σ).2 !! l = σ !! l.

(** Collaborators for a run of the pipeline: a resize that blanks the image
    it is handed, arrays without contents, an engine that answers with the
    given rows. *)
Definition blanking_resize (img : Image) (dsize : Z * Z)
    : Image * result unit :=
  (mkImage (image_height img) (image_width img) [], Ok tt).

Definition faithful_resize (img : Image) (dsize : Z * Z)
    : Image * result unit :=
  (img, Ok tt).

Definition run_pipeline (resize_fn : Image -> Z * Z -> Image * result unit)
    (rows : list RawRow) (self : YOLOXONNX) (image : loc)
    : M (list (list Z) * list (list npfloat)) :=
  __call__ resize_fn (fun t _ => Ok t) (fun t => t) (fun _ => tt)
           (fun _ => Ok rows) self image.

(** The scenario of the specification, section 8. *)
Definition demo_model : YOLOXONNX :=
  {| class_score_th := 35 # 100; input_height := 256; input_width := 320 |}.

Definition demo_image : Image :=
  {| image_height := 480; image_width := 640; pixels := [] |}.

Definition demo_row : RawRow :=
  mkRow (Fin 0) (Fin 1) (Fin (9 # 10)) (Fin (10 # 1)) (Fin (20 # 1))
        (Fin (100 # 1)) (Fin (200 # 1)).

(** A confident box that lies to the right of the model frame. *)
Definition row_off_frame : RawRow :=
  mkRow (Fin 0) (Fin 1) (Fin (9 # 10)) (Fin (400 # 1)) (Fin (20 # 1))
        (Fin (500 # 1)) (Fin (200 # 1)).

(** A row whose score is the threshold itself, and one below it. *)
Definition row_at_threshold : RawRow :=
  mkRow (Fin 0) (Fin 1) (Fin (35 # 100)) (Fin (10 # 1)) (Fin (20 # 1))
        (Fin (100 # 1)) (Fin (200 # 1)).

Definition row_low_score : RawRow :=
  mkRow (Fin 0) (Fin 2) (Fin (1 # 10)) (Fin (10 # 1)) (Fin (20 # 1))
        (Fin (100 # 1)) (Fin (200 # 1)).

(** ** [main]: the command line

    [int(s)] on a string of ASCII characters, after CPython's
    [PyLong_FromString] in base 10: blanks around, one sign, digits that
    single underscores may separate.  [max_str_digits] is the interpreter's
    limit on the number of digits ([sys.get_int_max_str_digits()], 0 for
    none), which is looked at for more than 640 digits only; interpreters
    without the limit behave as with 0. *)

(** [Py_ISSPACE]: tab, line feed, vertical tab, form feed, carriage return
    and space. *)
Definition is_space (c : ascii) : bool :=
  let n := N_of_ascii c in (((9 <=? n) && (n <=? 13)) || (n =? 32))%N.

Definition digit_value (c : ascii) : option Z :=
  let n := N_of_ascii c in
  if ((48 <=? n) && (n <=? 57))%N then Some (Z.of_N n - 48) else None.

Definition is_underscore (c : ascii) : bool := Ascii.eqb c "_".

Fixpoint skip_spaces (str : list ascii) : list ascii :=
  match str with
  | c :: str' => if is_space c then skip_spaces str' else str
  | [] => []
  end.

(** The scan over digits and underscores: the number of digits, their value
    and what follows them; [None] on two underscores in a row or on a
    trailing one. *)
Fixpoint scan_digits (prev : ascii) (digits : nat) (acc : Z)
    (p : list ascii) : option (nat * Z * list ascii) :=
  match p with
  | c :: p' =>
      if is_underscore c then
        if is_underscore prev then None else scan_digits c digits acc p'
      else
        match digit_value c with
        | Some d => scan_digits c (S digits) (10 * acc + d) p'
        | None => if is_underscore prev then None else Some (digits, acc, p)
        end
  | [] => if is_underscore prev then None else Some (digits, acc, [])
  end.

Definition parse_digits (max_str_digits : nat) (str : list ascii)
    : result Z :=
  if match str with c :: _ => is_underscore c | [] => false end
  then Raise ValueError
  else
    match scan_digits "000" 0 0 str with
    | None => Raise ValueError
    | Some (digits, v, rest) =>
        if (digits =? 0)%nat then Raise ValueError
        else if ((640 <? digits) && (0 <? max_str_digits)
                 && (max_str_digits <? digits))%nat
        then Raise ValueError
        else
          match skip_spaces rest with
          | [] => Ok v
          | _ :: _ => Raise ValueError
          end
    end.

(** [int(s)] *)
Definition int_of_str (max_str_digits : nat) (s : string) : result Z :=
  match skip_spaces (String.list_ascii_of_string s) with
  | c :: str' =>
      if Ascii.eqb c "+" then parse_digits max_str_digits str'
      else if Ascii.eqb c "-" then
        v ← parse_digits max_str_digits str'; Ok (- v)
      else parse_digits max_str_digits (c :: str')
  | [] => parse_digits max_str_digits []
  end.

(** Lines 223-228: only [ValueError] is caught. *)
Definition is_parsable_to_int (max_str_digits : nat) (s : string)
    : result bool :=
  match int_of_str max_str_digits s with
  | Ok _ => Ok true
  | Raise ValueError => Ok false
  | Raise e => Raise e
  end.

(** Line 283: the argument of [cv2.VideoCapture]. *)
Inductive video_source : Type :=
| CameraIndex (index : Z)
| VideoFile (filename : string).

Definition video_source_of (max_str_digits : nat) (video : string)
    : result video_source :=
  parsable ← is_parsable_to_int max_str_digits video;
  if parsable : bool then
    index ← int_of_str max_str_digits video; Ok (CameraIndex index)
  else Ok (VideoFile video).

(** The decimal value of a string of digits. *)
Definition decimal_value (ds : list ascii) : Z :=
  fold_left (fun acc c => 10 * acc + default 0 (digit_value c)) ds 0.

Definition is_digit (c : ascii) : bool :=
  match digit_value c with Some _ => true | None => false end.

(** The characters that a string accepted by [int] is made of. *)
Definition int_char (c : ascii) : bool :=
  is_digit c || is_underscore c || is_space c
  || Ascii.eqb c "+" || Ascii.eqb c "-".

(** Lines 17-27 and 254-275: execution providers. *)
Inductive option_value : Type :=
| OptBool (b : bool)
| OptStr (s : string).

Inductive provider : Type :=
| ProviderName (name : string)
| ProviderOptions (name : string) (options : list (string * option_value)).

Definition tensorrt_provider : provider :=
  ProviderOptions "TensorrtExecutionProvider"
    [ ("trt_engine_cache_enable", OptBool true);
      ("trt_engine_cache_path", OptStr ".");
      ("trt_fp16_enable", OptBool true) ].

(** The default of the [providers] parameter of [__init__]. *)
Definition default_providers : list provider :=
  [ tensorrt_provider;
    ProviderName "CUDAExecutionProvider";
    ProviderName "CPUExecutionProvider" ].

(** Lines 254-275; [None] is Python's [None]. *)
Definition select_providers (execution_provider : string)
    : option (list provider) :=
  if String.eqb execution_provider "cpu" then
    Some [ ProviderName "CPUExecutionProvider" ]
  else if String.eqb execution_provider "cuda" then
    Some [ ProviderName "CUDAExecutionProvider";
           ProviderName "CPUExecutionProvider" ]
  else if String.eqb execution_provider "tensorrt" then
    Some [ tensorrt_provider;
           ProviderName "CUDAExecutionProvider";
           ProviderName "CPUExecutionProvider" ]
  else None.

(** ** [main]: drawing the detections

    What is drawn on a frame is kept as the list of the drawing calls, in
    their order.  [None] stands for the [IndexError] of an index out of
    range, which abandons the frame. *)

Definition color : Type := Z * Z * Z.

Inductive font : Type := FONT_HERSHEY_SIMPLEX.
Inductive line_type : Type := LINE_AA.

Inductive draw_cmd : Type :=
| putText (text : string) (org : Z * Z) (fontFace : font) (fontScale : Q)
    (c : color) (thickness : Z) (lineType : line_type)
| rectangle (pt1 pt2 : Z * Z) (c : color) (thickness : Z).

(** Lines 329-335. *)
Definition class_color (classid : Z) : color :=
  if classid =? 0 then (255, 0, 0)
  else if classid =? 1 then (0, 0, 255)
  else if classid =? 2 then (0, 255, 0)
  else (255, 255, 255).

(** Lines 353-356: where the score is written. *)
Definition label_org (box0 box1 width : Z) : Z * Z :=
  (if box0 + 50 <? width then box0 else width - 50,
   if box1 - 25 >? 0 then box1 - 10 else 20).

Section drawing.
(** [f'{x:.2f}'], the formatting of a float, is outside the model. *)
Context (format_2f : npfloat -> string).

(** Lines 328-375: one detection. *)
Definition draw_detection (width : Z) (box : list Z) (score : list npfloat)
    : option (list draw_cmd) :=
  classid ← box !! 4%nat;
  let color := class_color classid in
  box0 ← box !! 0%nat;
  box1 ← box !! 1%nat;
  box2 ← box !! 2%nat;
  box3 ← box !! 3%nat;
  score0 ← score !! 0%nat;
  Some [ rectangle (box0, box1) (box2, box3) (255, 255, 255) 2;
         rectangle (box0, box1) (box2, box3) color 1;
         putText (format_2f score0) (label_org box0 box1 width)
                 FONT_HERSHEY_SIMPLEX (7 # 10) (255, 255, 255) 2 LINE_AA;
         putText (format_2f score0) (label_org box0 box1 width)
                 FONT_HERSHEY_SIMPLEX (7 # 10) color 1 LINE_AA ].

(** Lines 327-375: the loop over [zip(boxes, scores)]. *)
Fixpoint draw_detections (width : Z)
    (detections : list (list Z * list npfloat)) : option (list draw_cmd) :=
  match detections with
  | [] => Some []
  | (box, score) :: detections' =>
      cmds ← draw_detection width box score;
      rest ← draw_detections width detections';
      Some (cmds ++ rest)
  end.

(** Lines 306-375: everything drawn on one frame. *)
Definition annotate (elapsed_text : string) (width : Z)
    (boxes : list (list Z)) (scores : list (list npfloat))
    : option (list draw_cmd) :=
  let timing :=
    [ putText elapsed_text (10, 30) FONT_HERSHEY_SIMPLEX (7 # 10)
              (255, 255, 255) 2 LINE_AA;
      putText elapsed_text (10, 30) FONT_HERSHEY_SIMPLEX (7 # 10)
              (0, 0, 255) 1 LINE_AA ] in
  cmds ← draw_detections width (zip boxes scores);
  Some (timing ++ cmds).
End drawing.

(** The text position of a label command, if it is one. *)
Definition label_within (width : Z) (cmd : draw_cmd) : Prop :=
  match cmd with
  | putText _ (x, y) _ _ _ _ _ => 0 <= x <= width - 50 /\ 16 <= y
  | rectangle _ _ _ _ => True
  end.

(** ** [main]: the frame loop

    The capture, the clock and the keyboard answer once per iteration; a run
    is followed along a finite list of their answers. *)

Record tick : Type := mkTick {
  cap_isOpened : bool;            (* cap.isOpened() *)
  cap_read : option Image;        (* cap.read(): None when res is false *)
  elapsed_text : string;          (* f'{elapsed_time*1000:.2f} ms' *)
  waitKey : Z                     (* cv2.waitKey(1) *)
}.

(** A frame with what has been drawn on it. *)
Record annotated : Type := mkAnnotated {
  base : Image;
  overlay : list draw_cmd
}.

Inductive main_exn : Type :=
| ModelRaised (e : exn)
| IndexError.

Inductive main_event : Type :=
| imshow (frame : annotated)
| video_write (frame : annotated)
| video_writer_release
| cap_release.

Inductive loop_exit : Type :=
| LoopLeft                      (* the condition failed, or a break *)
| LoopRaised (e : main_exn)
| LoopRunning.                  (* the answers ran out *)

Section main.
Context (format_2f : npfloat -> string).
(** [model(debug_image)], a [YOLOXONNX] instance applied to a frame. *)
Context (model : Image -> result (list (list Z) * list (list npfloat))).

(** Lines 301-375. *)
Definition process_frame (t : tick) (image : Image)
    : main_exn + annotated :=
  let debug_image := image in
  match model debug_image with
  | Raise e => inl (ModelRaised e)
  | Ok (boxes, scores) =>
      match annotate format_2f (elapsed_text t) (image_width debug_image)
                     boxes scores with
      | None => inl IndexError
      | Some cmds => inr (mkAnnotated debug_image cmds)
      end
  end.

(** Lines 296-382. *)
Fixpoint main_loop (ticks : list tick) : list main_event * loop_exit :=
  match ticks with
  | [] => ([], LoopRunning)
  | t :: ticks' =>
      if cap_isOpened t then
        match cap_read t with
        | None => ([], LoopLeft)
        | Some image =>
            match process_frame t image with
            | inl e => ([], LoopRaised e)
            | inr debug_image =>
                if waitKey t =? 27 then ([], LoopLeft)
                else
                  let '(events, exit) := main_loop ticks' in
                  (imshow debug_image :: video_write debug_image :: events,
                   exit)
            end
        end
      else ([], LoopLeft)
  end.

(** Lines 296-388.  The objects [video_writer] and [cap] define neither
    [__bool__] nor [__len__], so both final tests hold. *)
Definition main_frames (ticks : list tick) : list main_event * loop_exit :=
  let '(events, exit) := main_loop ticks in
  match exit with
  | LoopLeft => (events ++ [video_writer_release; cap_release], LoopLeft)
  | _ => (events, exit)
  end.
End main.

(** An iteration that shows and writes its frame. *)
Definition tick_passes
    (model : Image -> result (list (list Z) * list (list npfloat)))
    (format_2f : npfloat -> string) (t : tick) (frame : annotated) : Prop :=
  cap_isOpened t = true
  /\ (exists image, cap_read t = Some image
                    /\ process_frame format_2f model t image = inr frame)
  /\ waitKey t <> 27.

(** An iteration that leaves the loop: the capture is closed, the read
    fails, or ESC is pressed on a frame that was processed. *)
Definition tick_stops
    (model : Image -> result (list (list Z) * list (list npfloat)))
    (format_2f : npfloat -> string) (t : tick) : Prop :=
  cap_isOpened t = false
  \/ cap_read t = None
  \/ (exists image frame, cap_read t = Some image
                          /\ process_frame format_2f model t image = inr frame
                          /\ waitKey t = 27).

Definition shown_and_written (frame : annotated) : list main_event :=
  [imshow frame; video_write frame].

(** A detector, a formatting and iterations to run the loop on. *)
Definition demo_detector (image : Image)
    : result (list (list Z) * list (list npfloat)) :=
  _postprocess demo_model image [demo_row].

Definition failing_detector (image : Image)
    : result (list (list Z) * list (list npfloat)) :=
  Raise EngineError.

Definition demo_format (x : npfloat) : string := "0.90".

Definition demo_tick (key : Z) : tick :=
  mkTick true (Some demo_image) "1.00 ms" key.

Definition demo_frame : annotated :=
  mkAnnotated demo_image
    (default [] (annotate demo_format "1.00 ms" 640
                   [[20; 37; 200; 375; 1]] [[Fin (9 # 10)]])).

(** What a row that lines 208-212 turn into a box is like: a finite
    class, no [+inf] in x1 or y1, neither [-inf] nor nan in x2 or y2. *)
Definition row_converts (box : RawRow) : Prop :=
  (exists c, classid box = Fin c)
  /\ x1 box <> PInf /\ y1 box <> PInf
  /\ (x2 box <> NInf /\ x2 box <> NaN)
  /\ (y2 box <> NInf /\ y2 box <> NaN).

(** A row that is below the threshold and holds nothing but nan. *)
Definition row_nan_low : RawRow :=
  mkRow NaN NaN (Fin (1 # 10)) NaN NaN NaN NaN.

(** A confident row whose x2 is nan. *)
Definition row_nan_x2 : RawRow :=
  mkRow (Fin 0) (Fin 1) (Fin (9 # 10)) (Fin (10 # 1)) (Fin (20 # 1))
        NaN (Fin (200 # 1)).

(** A confident row whose minima are nan and whose maxima are [+inf]. *)
Definition row_special : RawRow :=
  mkRow (Fin 0) (Fin 2) (Fin (9 # 10)) NaN NInf PInf PInf.

(** ** Lines 200-218 with numpy's floating point

    The definitions above compare and rescale exactly.  numpy casts the
    threshold to binary32 before it compares (line 202), and it multiplies
    and divides a float by an integer in floating point (lines 209-212): in
    binary32 from numpy 2 on, in binary64 before.  Here the cast is
    [float32], and the two operations are parameters, of which
    [np_mul_int] and [np_div_int] are the exact instance. *)

(** Rounding to the nearest integer, ties to even. *)
Definition rne (q : Q) : Z :=
  let f := Qfloor q in
  match (q - inject_Z f ?= 1 # 2)%Q with
  | Lt => f
  | Gt => f + 1
  | Eq => if Z.even f then f else f + 1
  end.

(** The exponent [e] of a positive rational: [2 ^ e <= q < 2 ^ (e + 1)]. *)
Definition binade (q : Q) : Z :=
  let e := Z.log2 (Qnum q) - Z.log2 (Z.pos (Qden q)) in
  if Qlt_bool q (2 ^ e) then e - 1 else e.

(** Rounding a positive rational to [prec] bits, with [emin] the exponent
    of the smallest subnormal and [2 ^ emax] the first value too large. *)
Definition round_pos (prec emin emax : Z) (q : Q) : npfloat :=
  let k := Z.max (binade q - (prec - 1)) emin in
  let v := (inject_Z (rne (q / 2 ^ k)) * 2 ^ k)%Q in
  if Qle_bool (2 ^ emax) v then PInf else Fin (Qred v).

Definition round_to (prec emin emax : Z) (q : Q) : npfloat :=
  match (q ?= 0)%Q with
  | Eq => Fin 0
  | Gt => round_pos prec emin emax q
  | Lt => np_neg (round_pos prec emin emax (- q))
  end.

Definition float32 : Q -> npfloat := round_to 24 (-149) 128.
Definition float64 : Q -> npfloat := round_to 53 (-1074) 1024.

(** The numbers [m * 2 ^ e] with [|m| < 2 ^ prec] and [emin <= e]: the
    finite values of the format, without its upper limit. *)
Definition representable (prec emin : Z) (q : Q) : Prop :=
  exists m e : Z,
    Z.abs m < 2 ^ prec /\ emin <= e /\ (q == inject_Z m * 2 ^ e)%Q.

Definition binary32 : Q -> Prop := representable 24 (-149).

(** [x > y] between two numpy floats. *)
Definition np_gt_float (x y : npfloat) : bool :=
  match y with
  | Fin r => np_gt x r
  | PInf => false
  | NInf => match x with Fin _ | PInf => true | _ => false end
  | NaN => false
  end.

(** [np.float32 * int] and [np.float32 / int] from numpy 2 on: the
    integer is converted to binary32 (its value is again an integer) and
    the result is rounded to binary32.  The integers here are dimensions of
    an array or of the model input; one of [2 ^ 128] or more, that the
    conversion does not hold, gives nan. *)
Definition np_mul_float32 (f : npfloat) (z : Z) : npfloat :=
  match float32 (inject_Z z) with
  | Fin z32 =>
      match np_mul_int f (Qfloor z32) with
      | Fin q => float32 q
      | r => r
      end
  | _ => NaN
  end.

Definition np_div_float32 (f : npfloat) (w : Z) : npfloat :=
  match float32 (inject_Z w) with
  | Fin w32 =>
      match np_div_int f (Qfloor w32) with
      | Fin q => float32 q
      | r => r
      end
  | _ => NaN
  end.

(** An operation in floating point gives a finite value only from a
    finite one: infinities and nan stay special. *)
Definition special_preserving (op : npfloat -> Z -> npfloat) : Prop :=
  forall (f : npfloat) (z : Z) (q : Q),
    op f z = Fin q -> exists q' : Q, f = Fin q'.

Section numpy.
Context (np_mul np_div : npfloat -> Z -> npfloat).

Definition py_mul_with (a : pynum) (z : Z) : pynum :=
  match a with
  | PyInt n => PyInt (n * z)
  | NpFloat f => NpFloat (np_mul f z)
  end.

Definition py_truediv_with (a : pynum) (w : Z) : result npfloat :=
  match a with
  | PyInt n =>
      if w =? 0 then Raise ZeroDivisionError
      else Ok (Fin (inject_Z n / inject_Z w))
  | NpFloat f => Ok (np_div f w)
  end.

Definition scale_with (v : pynum) (image_dim model_dim : Z) : result Z :=
  r ← py_truediv_with (py_mul_with v image_dim) model_dim; py_int r.

Context (self : YOLOXONNX) (image : Image).

(** Lines 208-212.  [max] and [min] compare a coordinate with 0 and with
    the model dimension exactly, as numpy does with an integer that the
    type of the coordinate holds. *)
Definition row_box_with (box : RawRow) : result (list Z) :=
  class_id ← py_int (classid box);
  x_min ← scale_with (py_max0 (x1 box))
                     (image_width image) (input_width self);
  y_min ← scale_with (py_max0 (y1 box))
                     (image_height image) (input_height self);
  x_max ← scale_with (py_min (x2 box) (input_width self))
                     (image_width image) (input_width self);
  y_max ← scale_with (py_min (y2 box) (input_height self))
                     (image_height image) (input_height self);
  Ok [x_min; y_min; x_max; y_max; class_id].

Definition loop_body_with (acc : list (list Z) * list (list npfloat))
    (it : RawRow * list npfloat)
    : result (list (list Z) * list (list npfloat)) :=
  let '(result_boxes, result_scores) := acc in
  let '(box, score) := it in
  b ← row_box_with box;
  Ok (result_boxes ++ [b], result_scores ++ [score]).

(** [keep_idxs = scores[:, 0] > self.class_score_th], the threshold cast
    to the type of the scores. *)
Definition keep_idxs_numpy (scores : list (list npfloat)) : list bool :=
  (fun s => np_gt_float (s !!! 0%nat) (float32 (class_score_th self)))
    <$> scores.

Definition boxes_keep_numpy (boxes : list RawRow) : list RawRow :=
  mask_select (keep_idxs_numpy (scores_of boxes)) boxes.

Definition _postprocess_numpy (boxes : list RawRow)
    : result (list (list Z) * list (list npfloat)) :=
  let result_boxes := [] in
  let result_scores := [] in
  if (0 <? length boxes)%nat then
    let scores := scores_of boxes in
    let keep_idxs := keep_idxs_numpy scores in
    let scores_keep := mask_select keep_idxs scores in
    let boxes_keep := mask_select keep_idxs boxes in
    if (0 <? length boxes_keep)%nat then
      for_each loop_body_with (zip boxes_keep scores_keep)
               (result_boxes, result_scores)
    else Ok (result_boxes, result_scores)
  else Ok (result_boxes, result_scores).
End numpy.

(** What lines 209-212 return for a finite raw coordinate [v]: for a
    minimum, 0 unless [v > 0]; for a maximum, the image dimension if
    [v > model_dim]; in between, [int] of the floating-point product and
    quotient. *)
Definition lower_with (np_mul np_div : npfloat -> Z -> npfloat) (v : Q)
    (image_dim model_dim : Z) : result Z :=
  if Qlt_bool 0 v then py_int (np_div (np_mul (Fin v) image_dim) model_dim)
  else Ok 0.

Definition upper_with (np_mul np_div : npfloat -> Z -> npfloat) (v : Q)
    (image_dim model_dim : Z) : result Z :=
  if Qlt_bool (inject_Z model_dim) v then Ok image_dim
  else py_int (np_div (np_mul (Fin v) image_dim) model_dim).

(** The Python float [0.3] and the binary32 value next to it. *)
Definition python_0_3 : Q := 5404319552844595 # 18014398509481984.
Definition float32_0_3 : Q := 5033165 # 16777216.

Definition model_0_3 : YOLOXONNX :=
  {| class_score_th := python_0_3; input_height := 256; input_width := 320 |}.

Definition row_score_0_3 : RawRow :=
  mkRow (Fin 0) (Fin 1) (Fin float32_0_3) (Fin (10 # 1)) (Fin (20 # 1))
        (Fin (100 # 1)) (Fin (200 # 1)).

(** A row on which binary32 rounds the products up to integers, and one
    whose x1 is the binary32 value next to [3e38]. *)
Definition row_rounding : RawRow :=
  mkRow (Fin 0) (Fin 1) (Fin (9 # 10)) (Fin (10 # 1))
        (Fin (9507089 # 1048576)) (Fin (100 # 1))
        (Fin (5312785 # 262144)).

Definition row_huge : RawRow :=
  mkRow (Fin 0) (Fin 1) (Fin (9 # 10))
        (Fin (300000000549775575777803994281145270272 # 1)) (Fin (20 # 1))
        (Fin (100 # 1)) (Fin (200 # 1)).

(** * Properties *)

(** ** Truncation of rationals *)

Lemma Qtrunc_nonneg_floor (q : Q) : (0 <= q)%Q -> Qtrunc q = Qfloor q.
Proof.
  destruct q as [n d]. unfold Qle, Qtrunc, Qfloor. simpl. intros Hn.
  apply Z.quot_div_nonneg; lia.
Qed.

Lemma Qtrunc_neg_ceiling (q : Q) : (q <= 0)%Q -> Qtrunc q = Qceiling q.
Proof.
  destruct q as [n d]. unfold Qle, Qtrunc, Qceiling, Qfloor. simpl. intros Hn.
  replace n with (- - n) at 1 by lia.
  rewrite Z.quot_opp_l by lia. f_equal.
  apply Z.quot_div_nonneg; lia.
Qed.

Lemma Qtrunc_nonneg (q : Q) : (0 <= q)%Q -> 0 <= Qtrunc q.
Proof.
  intros Hq. rewrite Qtrunc_nonneg_floor by exact Hq.
  change 0 with (Qfloor 0). apply Qfloor_resp_le, Hq.
Qed.

Lemma Qtrunc_nonpos (q : Q) : (q <= 0)%Q -> Qtrunc q <= 0.
Proof.
  intros Hq. rewrite Qtrunc_neg_ceiling by exact Hq.
  change 0 with (Qceiling 0). apply Qceiling_resp_le, Hq.
Qed.

(** Truncation toward zero is monotone. *)
Lemma Qtrunc_mono (p q : Q) : (p <= q)%Q -> Qtrunc p <= Qtrunc q.
Proof.
  intros Hpq.
  destruct (Qlt_le_dec p 0) as [Hp | Hp]; destruct (Qlt_le_dec q 0) as [Hq | Hq].
  - rewrite !Qtrunc_neg_ceiling by (apply Qlt_le_weak; assumption).
    apply Qceiling_resp_le, Hpq.
  - transitivity 0.
    + apply Qtrunc_nonpos, Qlt_le_weak, Hp.
    + apply Qtrunc_nonneg, Hq.
  - exfalso. apply (Qlt_irrefl q).
    eapply Qlt_le_trans; [exact Hq |]. eapply Qle_trans; eassumption.
  - rewrite !Qtrunc_nonneg_floor by assumption.
    apply Qfloor_resp_le, Hpq.
Qed.

Lemma Qtrunc_comp (p q : Q) : (p == q)%Q -> Qtrunc p = Qtrunc q.
Proof.
  intros Heq. apply Z.le_antisymm; apply Qtrunc_mono; rewrite Heq; apply Qle_refl.
Qed.

Lemma Qtrunc_inject_Z (z : Z) : Qtrunc (inject_Z z) = z.
Proof. unfold Qtrunc, inject_Z. simpl. apply Z.quot_1_r. Qed.

Lemma Qtrunc_le_Z (q : Q) (z : Z) : (q <= inject_Z z)%Q -> Qtrunc q <= z.
Proof. intros H. rewrite <- (Qtrunc_inject_Z z). apply Qtrunc_mono, H. Qed.

Lemma Qlt_bool_iff (a b : Q) : Qlt_bool a b = true <-> (a < b)%Q.
Proof.
  unfold Qlt_bool. rewrite negb_true_iff, <- not_true_iff_false, Qle_bool_iff.
  split; [apply Qnot_le_lt | apply Qlt_not_le].
Qed.

Lemma Qlt_bool_false_iff (a b : Q) : Qlt_bool a b = false <-> (b <= a)%Q.
Proof.
  unfold Qlt_bool. rewrite negb_false_iff. apply Qle_bool_iff.
Qed.

Lemma np_gt_Fin (q th : Q) : np_gt (Fin q) th = true <-> (th < q)%Q.
Proof. apply Qlt_bool_iff. Qed.

(** ** Rounding to a floating-point format

    Rounding to nearest never crosses a number of the format: a
    representable number at or below [x] is at or below the rounded [x]. *)

Lemma Qfloor_rne (q : Q) : Qfloor q <= rne q.
Proof.
  unfold rne. destruct (_ ?= _)%Q; [destruct (Z.even _) | |]; lia.
Qed.

Lemma rne_ge_int (q : Q) (n : Z) : (inject_Z n <= q)%Q -> n <= rne q.
Proof.
  intros H. apply Qfloor_resp_le in H. rewrite Qfloor_Z in H.
  pose proof (Qfloor_rne q). lia.
Qed.

Lemma rne_le_int (q : Q) (n : Z) : (q <= inject_Z n)%Q -> rne q <= n.
Proof.
  intros H.
  assert (Hf : Qfloor q <= n).
  { rewrite Zle_Qle. eapply Qle_trans; [apply Qfloor_le | exact H]. }
  destruct (Z.eq_dec (Qfloor q) n) as [He | Hne].
  - unfold rne. rewrite He.
    assert (Hlt : (q - inject_Z n < 1 # 2)%Q).
    { apply Qle_lt_trans with 0%Q; [| reflexivity].
      apply (Qplus_le_l _ _ (inject_Z n)). ring_simplify. exact H. }
    rewrite (proj1 (Qlt_alt _ _) Hlt). lia.
  - assert (rne q <= Qfloor q + 1); [| lia].
    unfold rne. destruct (_ ?= _)%Q; [destruct (Z.even _) | |]; lia.
Qed.

Lemma Qpow2_pos (e : Z) : (0 < 2 ^ e)%Q.
Proof. apply Qpower_0_lt. reflexivity. Qed.

Lemma Qpow2_plus (a b : Z) : (2 ^ (a + b) == 2 ^ a * 2 ^ b)%Q.
Proof. apply Qpower_plus. discriminate. Qed.

Lemma Qpow2_le (a b : Z) : a <= b -> (2 ^ a <= 2 ^ b)%Q.
Proof. intros H. apply Qpower_le_compat_l; [exact H | discriminate]. Qed.

Lemma Qpow2_inject (n : Z) : 0 <= n -> (2 ^ n == inject_Z (2 ^ n))%Q.
Proof. intros H. symmetry. apply (Zpower_Qpower 2 n H). Qed.

Lemma inject_Z_pos (n : Z) : 0 < n -> (0 < inject_Z n)%Q.
Proof. intros H. unfold Qlt. simpl. lia. Qed.

Lemma binade_le (q : Q) : (0 < q)%Q -> (2 ^ binade q <= q)%Q.
Proof.
  intros Hq. unfold binade.
  set (e := Z.log2 (Qnum q) - Z.log2 (Z.pos (Qden q))).
  destruct (Qlt_bool q (2 ^ e)) eqn:Hlt.
  - destruct q as [n d]. unfold e. cbn [Qnum Qden] in *.
    assert (Hn : 0 < n) by (unfold Qlt in Hq; simpl in Hq; lia).
    pose proof (Z.log2_spec n Hn) as [Hn1 _].
    pose proof (Z.log2_spec (Z.pos d) (Pos2Z.is_pos d)) as [_ Hd2].
    pose proof (Z.log2_nonneg n) as Hln.
    pose proof (Z.log2_nonneg (Z.pos d)) as Hld.
    replace (Z.log2 n - Z.log2 (Z.pos d) - 1)
      with (Z.log2 n - Z.succ (Z.log2 (Z.pos d))) by lia.
    rewrite Qpower_minus by discriminate.
    rewrite !Qpow2_inject by lia.
    set (a := 2 ^ Z.log2 n) in *. set (b := 2 ^ Z.succ (Z.log2 (Z.pos d))) in *.
    assert (Hb : 0 < b) by lia.
    assert (Ha : 0 < a) by (apply Z.pow_pos_nonneg; lia).
    unfold Qdiv, Qle, Qmult, Qinv, inject_Z. 
    destruct b as [| b | b]; try lia. simpl.
    nia.
  - apply Qlt_bool_false_iff in Hlt. exact Hlt.
Qed.

Lemma scaled_int (m e k : Z) :
  k <= e -> (inject_Z m * 2 ^ e == inject_Z (m * 2 ^ (e - k)) * 2 ^ k)%Q.
Proof.
  intros H. rewrite inject_Z_mult, <- Qpow2_inject by lia.
  rewrite <- Qmult_assoc, <- Qpow2_plus.
  replace (e - k + k) with e by lia. reflexivity.
Qed.

(** A representable number of exponent at most [k] is below
    [2 ^ (prec + k)]. *)
Lemma representable_lt (prec : Z) (m e k : Z) :
  0 < prec -> Z.abs m < 2 ^ prec -> e <= k ->
  (inject_Z m * 2 ^ e < 2 ^ (prec + k))%Q.
Proof.
  intros Hp Hm He.
  apply Qlt_le_trans with (2 ^ (prec + e))%Q;
    [| apply Qpow2_le; lia].
  rewrite Qpow2_plus. apply Qmult_lt_compat_r; [apply Qpow2_pos |].
  rewrite Qpow2_inject by lia. rewrite <- Zlt_Qlt. lia.
Qed.

Section rounding.
Context (prec emin emax : Z) (Hprec : 0 < prec).

Lemma round_pos_Fin (x r : Q) :
  round_pos prec emin emax x = Fin r ->
  (r == inject_Z (rne (x / 2 ^ Z.max (binade x - (prec - 1)) emin))
        * 2 ^ Z.max (binade x - (prec - 1)) emin)%Q.
Proof.
  unfold round_pos. intros H.
  destruct (Qle_bool _ _); [discriminate |].
  injection H as <-. apply Qred_correct.
Qed.

Lemma round_pos_ge (x y r : Q) :
  (0 < x)%Q -> round_pos prec emin emax x = Fin r ->
  representable prec emin y -> (y <= x)%Q -> (y <= r)%Q.
Proof.
  intros Hx Hr (m & e & Hm & He & Hy) Hle.
  apply round_pos_Fin in Hr.
  set (k := Z.max (binade x - (prec - 1)) emin) in *.
  rewrite Hr. destruct (Z_le_gt_dec k e) as [Hke | Hke].
  - rewrite Hy, (scaled_int m e k Hke) in *.
    apply Qmult_le_compat_r; [| apply Qlt_le_weak, Qpow2_pos].
    rewrite <- Zle_Qle. apply rne_ge_int.
    apply Qle_shift_div_l; [apply Qpow2_pos | exact Hle].
  - assert (Hk : k = binade x - (prec - 1)) by lia.
    apply Qle_trans with (2 ^ binade x)%Q.
    + apply Qlt_le_weak. rewrite Hy.
      replace (binade x) with (prec + (k - 1)) by lia.
      apply representable_lt; [exact Hprec | exact Hm | lia].
    + replace (binade x) with (prec - 1 + k) at 1 by lia.
      rewrite Qpow2_plus.
      apply Qmult_le_compat_r; [| apply Qlt_le_weak, Qpow2_pos].
      rewrite Qpow2_inject by lia. rewrite <- Zle_Qle. apply rne_ge_int.
      apply Qle_shift_div_l; [apply Qpow2_pos |].
      rewrite <- Qpow2_inject by lia. rewrite <- Qpow2_plus.
      replace (prec - 1 + k) with (binade x) by lia.
      apply binade_le, Hx.
Qed.

Lemma round_pos_le (x y r : Q) :
  (0 < x)%Q -> round_pos prec emin emax x = Fin r ->
  representable prec emin y -> (x <= y)%Q -> (r <= y)%Q.
Proof.
  intros Hx Hr (m & e & Hm & He & Hy) Hle.
  apply round_pos_Fin in Hr.
  set (k := Z.max (binade x - (prec - 1)) emin) in *.
  rewrite Hr. destruct (Z_le_gt_dec k e) as [Hke | Hke].
  - rewrite Hy, (scaled_int m e k Hke) in *.
    apply Qmult_le_compat_r; [| apply Qlt_le_weak, Qpow2_pos].
    rewrite <- Zle_Qle. apply rne_le_int.
    apply Qle_shift_div_r; [apply Qpow2_pos | exact Hle].
  - assert (Hk : k = binade x - (prec - 1)) by lia.
    exfalso. apply (Qlt_irrefl y).
    apply Qlt_le_trans with (2 ^ binade x)%Q.
    + rewrite Hy at 1.
      replace (binade x) with (prec + (k - 1)) by lia.
      apply representable_lt; [exact Hprec | exact Hm | lia].
    + apply Qle_trans with x; [apply binade_le, Hx | exact Hle].
Qed.

Lemma representable_opp (y : Q) :
  representable prec emin y -> representable prec emin (- y).
Proof.
  intros (m & e & Hm & He & Hy). exists (- m), e.
  split; [lia |]. split; [exact He |].
  rewrite Hy, inject_Z_opp. ring.
Qed.

(** Rounding to nearest never crosses a representable number. *)
Lemma round_to_ge (x y r : Q) :
  round_to prec emin emax x = Fin r ->
  representable prec emin y -> (y <= x)%Q -> (y <= r)%Q.
Proof.
  unfold round_to. intros Hr Hy Hle.
  destruct (x ?= 0)%Q eqn:Hc.
  - injection Hr as <-. apply Qeq_alt in Hc. rewrite <- Hc. exact Hle.
  - apply Qlt_alt in Hc.
    destruct (round_pos prec emin emax (- x)) as [r' | | |] eqn:Hr';
      try discriminate.
    injection Hr as <-.
    assert (H : (r' <= - y)%Q).
    { apply (round_pos_le (- x) (- y) r').
      - apply (Qplus_lt_l _ _ x). ring_simplify. exact Hc.
      - exact Hr'.
      - apply representable_opp, Hy.
      - apply Qopp_le_compat, Hle. }
    apply Qopp_le_compat in H. rewrite Qopp_involutive in H. exact H.
  - apply Qgt_alt in Hc. apply (round_pos_ge x y r Hc Hr Hy Hle).
Qed.
End rounding.

(** ** The shape of [_postprocess] *)

Lemma mask_select_fmap {A : Type} (f : A -> bool) (a : list A) :
  mask_select (f <$> a) a = List.filter f a.
Proof.
  induction a as [| x a IH]; simpl; [reflexivity |].
  destruct (f x); [f_equal |]; exact IH.
Qed.

Lemma mask_select_fmap_fmap {A B : Type} (f : A -> bool) (g : A -> B)
    (a : list A) :
  mask_select (f <$> a) (g <$> a) = g <$> List.filter f a.
Proof.
  induction a as [| x a IH]; simpl; [reflexivity |].
  destruct (f x); simpl; [f_equal |]; exact IH.
Qed.

Lemma keep_idxs_above (self : YOLOXONNX) (boxes : list RawRow) :
  keep_idxs_of self (scores_of boxes) = above_threshold self <$> boxes.
Proof.
  unfold keep_idxs_of, scores_of. rewrite <- list_fmap_compose. reflexivity.
Qed.

Lemma boxes_keep_filter (self : YOLOXONNX) (boxes : list RawRow) :
  boxes_keep_of self boxes = List.filter (above_threshold self) boxes.
Proof.
  unfold boxes_keep_of. rewrite keep_idxs_above. apply mask_select_fmap.
Qed.

Lemma scores_keep_filter (self : YOLOXONNX) (boxes : list RawRow) :
  scores_keep_of self boxes = scores_of (boxes_keep_of self boxes).
Proof.
  rewrite boxes_keep_filter. unfold scores_keep_of.
  rewrite keep_idxs_above. apply mask_select_fmap_fmap.
Qed.

Lemma mapM_Ok_Forall2 {A B : Type} (f : A -> result B) (l : list A)
    (k : list B) :
  mapM f l = Ok k <-> Forall2 (fun x y => f x = Ok y) l k.
Proof.
  revert k. induction l as [| x l IH]; intros k; simpl.
  - split.
    + intros [= <-]. constructor.
    + intros H. inversion H. reflexivity.
  - split.
    + destruct (f x) as [y |] eqn:Hy; simpl; [| discriminate].
      destruct (mapM f l) as [k' |] eqn:Hk; simpl; [| discriminate].
      intros [= <-]. constructor; [exact Hy | apply IH; reflexivity].
    + intros H. inversion H as [| ? y ? k' Hy Hk]; subst.
      rewrite Hy. simpl. apply IH in Hk. rewrite Hk. reflexivity.
Qed.

(** The loop appends, in order, the box and the score of each row. *)
Lemma for_each_loop_body (self : YOLOXONNX) (image : Image)
    (rows : list RawRow) (acc_b : list (list Z)) (acc_s : list (list npfloat)) :
  for_each (loop_body self image) (zip rows (scores_of rows)) (acc_b, acc_s)
  = bs ← mapM (row_box self image) rows;
    Ok (acc_b ++ bs, acc_s ++ scores_of rows).
Proof.
  revert acc_b acc_s. induction rows as [| r rows IH]; intros acc_b acc_s; simpl.
  - rewrite !app_nil_r. reflexivity.
  - destruct (row_box self image r) as [b |] eqn:Hb; simpl; [| reflexivity].
    rewrite IH. destruct (mapM (row_box self image) rows) as [bs |]; simpl.
    + rewrite <- !app_assoc. reflexivity.
    + reflexivity.
Qed.

(** [_postprocess] maps [row_box] over the kept rows, in their order. *)
Lemma postprocess_spec (self : YOLOXONNX) (image : Image)
    (boxes : list RawRow) :
  _postprocess self image boxes
  = bs ← mapM (row_box self image) (boxes_keep_of self boxes);
    Ok (bs, scores_of (boxes_keep_of self boxes)).
Proof.
  unfold _postprocess.
  change (mask_select (keep_idxs_of self (scores_of boxes)) (scores_of boxes))
    with (scores_keep_of self boxes).
  change (mask_select (keep_idxs_of self (scores_of boxes)) boxes)
    with (boxes_keep_of self boxes).
  rewrite scores_keep_filter.
  destruct boxes as [| r boxes]; [reflexivity |].
  change (0 <? length (r :: boxes))%nat with true. cbv iota.
  destruct (boxes_keep_of self (r :: boxes)) as [| k ks] eqn:Hk.
  - reflexivity.
  - change (0 <? length (k :: ks))%nat with true. cbv iota.
    rewrite for_each_loop_body. reflexivity.
Qed.

Lemma postprocess_Ok (self : YOLOXONNX) (image : Image)
    (boxes : list RawRow) (bs : list (list Z)) (ss : list (list npfloat)) :
  _postprocess self image boxes = Ok (bs, ss) <->
  Forall2 (fun box b => row_box self image box = Ok b)
          (boxes_keep_of self boxes) bs
  /\ ss = scores_of (boxes_keep_of self boxes).
Proof.
  rewrite postprocess_spec, <- mapM_Ok_Forall2.
  destruct (mapM (row_box self image) (boxes_keep_of self boxes)) as [bs' |];
    simpl; split.
  - intros [= <- <-]. split; reflexivity.
  - intros [[= ->] ->]. reflexivity.
  - discriminate.
  - intros [[=] _].
Qed.

(** ** Rescaling one coordinate *)

Lemma inject_Z_nonzero (w : Z) : w <> 0 -> ~ (inject_Z w == 0)%Q.
Proof.
  intros Hw Heq. apply Hw. unfold Qeq, inject_Z in Heq. simpl in Heq. lia.
Qed.

Lemma inject_Z_nonneg (z : Z) : 0 <= z -> (0 <= inject_Z z)%Q.
Proof. intros Hz. change 0%Q with (inject_Z 0). rewrite <- Zle_Qle. exact Hz. Qed.

Lemma Qscale_nonneg (v : Q) (image_dim model_dim : Z) :
  0 <= image_dim -> 0 < model_dim -> (0 <= v)%Q ->
  (0 <= v * inject_Z image_dim / inject_Z model_dim)%Q.
Proof.
  intros Hi Hm Hv. unfold Qdiv. apply Qmult_le_0_compat.
  - apply Qmult_le_0_compat; [exact Hv | apply inject_Z_nonneg, Hi].
  - apply Qinv_le_0_compat, inject_Z_nonneg. lia.
Qed.

Lemma Qscale_mono (u v : Q) (image_dim model_dim : Z) :
  0 <= image_dim -> 0 < model_dim -> (u <= v)%Q ->
  (u * inject_Z image_dim / inject_Z model_dim
   <= v * inject_Z image_dim / inject_Z model_dim)%Q.
Proof.
  intros Hi Hm Huv. unfold Qdiv. apply Qmult_le_compat_r.
  - apply Qmult_le_compat_r; [exact Huv | apply inject_Z_nonneg, Hi].
  - apply Qinv_le_0_compat, inject_Z_nonneg. lia.
Qed.

Lemma Qscale_full (image_dim model_dim : Z) :
  model_dim <> 0 ->
  (inject_Z model_dim * inject_Z image_dim / inject_Z model_dim
   == inject_Z image_dim)%Q.
Proof.
  intros Hm. rewrite (Qmult_comm (inject_Z model_dim)).
  apply Qdiv_mult_l, inject_Z_nonzero, Hm.
Qed.

Lemma lower_coord_nonneg (v : Q) (image_dim model_dim : Z) :
  0 <= image_dim -> 0 < model_dim -> 0 <= lower_coord v image_dim model_dim.
Proof.
  intros Hi Hm. apply Qtrunc_nonneg, Qscale_nonneg; [exact Hi | exact Hm |].
  apply Q.le_max_l.
Qed.

Lemma upper_coord_le (v : Q) (image_dim model_dim : Z) :
  0 <= image_dim -> 0 < model_dim ->
  upper_coord v image_dim model_dim <= image_dim.
Proof.
  intros Hi Hm. apply Qtrunc_le_Z.
  eapply Qle_trans.
  - apply Qscale_mono; [exact Hi | exact Hm |]. apply Q.le_min_r.
  - rewrite Qscale_full by lia. apply Qle_refl.
Qed.


(** [int(max(0, v) * image_dim / model_dim)] on a finite [v]. *)
Lemma scale_max0_Fin (v : Q) (image_dim model_dim : Z) :
  model_dim <> 0 ->
  scale (py_max0 (Fin v)) image_dim model_dim
  = Ok (lower_coord v image_dim model_dim).
Proof.
  intros Hm. apply Z.eqb_neq in Hm.
  unfold scale, py_max0, lower_coord. simpl.
  destruct (Qlt_bool 0 v) eqn:Hv; simpl; rewrite Hm; simpl; f_equal;
    apply Qtrunc_comp.
  - apply Qlt_bool_iff in Hv. rewrite Q.max_r by (apply Qlt_le_weak, Hv).
    reflexivity.
  - apply Qlt_bool_false_iff in Hv. rewrite Q.max_l by exact Hv.
    unfold Qdiv. rewrite !Qmult_0_l. reflexivity.
Qed.

(** [int(min(v, model_dim) * image_dim / model_dim)] on a finite [v]. *)
Lemma scale_min_Fin (v : Q) (image_dim model_dim : Z) :
  model_dim <> 0 ->
  scale (py_min (Fin v) model_dim) image_dim model_dim
  = Ok (upper_coord v image_dim model_dim).
Proof.
  intros Hm. apply Z.eqb_neq in Hm.
  unfold scale, py_min, upper_coord. simpl.
  destruct (Qlt_bool (inject_Z model_dim) v) eqn:Hv; simpl; rewrite Hm; simpl;
    f_equal; apply Qtrunc_comp.
  - apply Qlt_bool_iff in Hv. rewrite Q.min_r by (apply Qlt_le_weak, Hv).
    rewrite inject_Z_mult. reflexivity.
  - apply Qlt_bool_false_iff in Hv. rewrite Q.min_l by exact Hv.
    reflexivity.
Qed.

(** Whatever the raw value, a minimum that is returned is not negative. *)
Lemma scale_max0_nonneg (x : npfloat) (image_dim model_dim z : Z) :
  0 <= image_dim -> 0 < model_dim ->
  scale (py_max0 x) image_dim model_dim = Ok z -> 0 <= z.
Proof.
  intros Hi Hm. destruct x as [v | | |].
  - rewrite scale_max0_Fin by lia. intros [= <-].
    apply lower_coord_nonneg; assumption.
  - unfold scale, py_max0. simpl.
    destruct (0 <? image_dim); simpl.
    + destruct (model_dim <? 0); discriminate.
    + destruct (image_dim <? 0); simpl; [| discriminate].
      destruct (model_dim <? 0); discriminate.
  - intros H. change (py_max0 NInf) with (py_max0 (Fin 0)) in H.
    rewrite scale_max0_Fin in H by lia. injection H as <-.
    apply lower_coord_nonneg; assumption.
  - intros H. change (py_max0 NaN) with (py_max0 (Fin 0)) in H.
    rewrite scale_max0_Fin in H by lia. injection H as <-.
    apply lower_coord_nonneg; assumption.
Qed.

(** Whatever the raw value, a maximum that is returned is within the image. *)
Lemma scale_min_le (x : npfloat) (image_dim model_dim z : Z) :
  0 <= image_dim -> 0 < model_dim ->
  scale (py_min x model_dim) image_dim model_dim = Ok z -> z <= image_dim.
Proof.
  intros Hi Hm. destruct x as [v | | |].
  - rewrite scale_min_Fin by lia. intros [= <-].
    apply upper_coord_le; assumption.
  - unfold scale, py_min. simpl.
    assert (Hne : (model_dim =? 0) = false) by (apply Z.eqb_neq; lia).
    rewrite Hne. simpl. intros [= <-].
    apply Qtrunc_le_Z. rewrite inject_Z_mult, Qscale_full by lia.
    apply Qle_refl.
  - unfold scale, py_min. simpl.
    destruct (0 <? image_dim); simpl.
    + destruct (model_dim <? 0); discriminate.
    + destruct (image_dim <? 0); simpl; [| discriminate].
      destruct (model_dim <? 0); discriminate.
  - unfold scale, py_min. simpl. discriminate.
Qed.

(** ** One row *)

Lemma row_box_Ok_inv (self : YOLOXONNX) (image : Image) (box : RawRow)
    (b : list Z) :
  row_box self image box = Ok b ->
  exists class_id x_min y_min x_max y_max,
    py_int (classid box) = Ok class_id
    /\ scale (py_max0 (x1 box)) (image_width image) (input_width self)
       = Ok x_min
    /\ scale (py_max0 (y1 box)) (image_height image) (input_height self)
       = Ok y_min
    /\ scale (py_min (x2 box) (input_width self))
             (image_width image) (input_width self) = Ok x_max
    /\ scale (py_min (y2 box) (input_height self))
             (image_height image) (input_height self) = Ok y_max
    /\ b = [x_min; y_min; x_max; y_max; class_id].
Proof.
  unfold row_box.
  destruct (py_int (classid box)) as [c |]; simpl; [| discriminate].
  destruct (scale (py_max0 (x1 box)) _ _) as [a |]; simpl; [| discriminate].
  destruct (scale (py_max0 (y1 box)) _ _) as [a' |]; simpl; [| discriminate].
  destruct (scale (py_min (x2 box) _) _ _) as [d |]; simpl; [| discriminate].
  destruct (scale (py_min (y2 box) _) _ _) as [d' |]; simpl; [| discriminate].
  intros [= <-]. exists c, a, a', d, d'. repeat split; reflexivity.
Qed.


Lemma row_box_one_sided (self : YOLOXONNX) (image : Image) (box : RawRow)
    (b : list Z) :
  0 <= image_width image -> 0 <= image_height image ->
  0 < input_width self -> 0 < input_height self ->
  row_box self image box = Ok b -> box_one_sided image b.
Proof.
  intros Hiw Hih Hw Hh Hb.
  apply row_box_Ok_inv in Hb
    as (c & a & a' & d & d' & _ & Ha & Ha' & Hd & Hd' & ->).
  simpl. repeat split.
  - eapply scale_max0_nonneg; [exact Hiw | exact Hw | exact Ha].
  - eapply scale_max0_nonneg; [exact Hih | exact Hh | exact Ha'].
  - eapply scale_min_le; [exact Hiw | exact Hw | exact Hd].
  - eapply scale_min_le; [exact Hih | exact Hh | exact Hd'].
Qed.


Lemma Forall2_row_box_Forall (self : YOLOXONNX) (image : Image)
    (P : RawRow -> Prop) (R : list Z -> Prop)
    (rows : list RawRow) (bs : list (list Z)) :
  (forall box b, P box -> row_box self image box = Ok b -> R b) ->
  Forall P rows ->
  Forall2 (fun box b => row_box self image box = Ok b) rows bs ->
  Forall R bs.
Proof.
  intros HPR HP H2. induction H2 as [| box b rows bs Hb _ IH].
  - constructor.
  - inversion HP; subst. constructor; [eapply HPR; eassumption | apply IH].
    assumption.
Qed.

Lemma Forall2_row_box_all (self : YOLOXONNX) (image : Image)
    (R : list Z -> Prop) (rows : list RawRow) (bs : list (list Z)) :
  (forall box b, row_box self image box = Ok b -> R b) ->
  Forall2 (fun box b => row_box self image box = Ok b) rows bs ->
  Forall R bs.
Proof.
  intros HR H2.
  apply (Forall2_row_box_Forall self image (fun _ => True) R rows bs);
    [intros box b _; apply HR | | exact H2].
  apply Forall_forall. intros; exact I.
Qed.

(** Truncation is toward zero, on both sides of it. *)
Example Qtrunc_positive : Qtrunc (75 # 2) = 37.
Proof. reflexivity. Qed.

Example Qtrunc_negative : Qtrunc (- 21 # 2) = - 10.
Proof. reflexivity. Qed.

(** * The properties of the specification *)

(** ** Bounds of the returned boxes *)






(** ** The rescaling of one row *)

Lemma scale_exact (v : pynum) (image_dim model_dim : Z) :
  scale_with np_mul_int np_div_int v image_dim model_dim
  = scale v image_dim model_dim.
Proof. destruct v; reflexivity. Qed.

Lemma row_box_exact (self : YOLOXONNX) (image : Image) (box : RawRow) :
  row_box_with np_mul_int np_div_int self image box = row_box self image box.
Proof. unfold row_box_with, row_box. rewrite !scale_exact. reflexivity. Qed.

Lemma scale_with_PyInt_zero (np_mul np_div : npfloat -> Z -> npfloat)
    (image_dim model_dim : Z) :
  model_dim <> 0 ->
  scale_with np_mul np_div (PyInt 0) image_dim model_dim = Ok 0.
Proof.
  intros Hm. apply Z.eqb_neq in Hm. unfold scale_with. simpl. rewrite Hm.
  simpl. f_equal; try (apply (Qtrunc_comp _ 0); unfold Qdiv; apply Qmult_0_l).
Qed.

Lemma scale_with_PyInt_full (np_mul np_div : npfloat -> Z -> npfloat)
    (image_dim model_dim : Z) :
  model_dim <> 0 ->
  scale_with np_mul np_div (PyInt model_dim) image_dim model_dim
  = Ok image_dim.
Proof.
  intros Hm. unfold scale_with. simpl.
  rewrite (proj2 (Z.eqb_neq model_dim 0) Hm). simpl. f_equal.
  rewrite (Qtrunc_comp _ (inject_Z image_dim)); [apply Qtrunc_inject_Z |].
  rewrite inject_Z_mult. apply Qscale_full, Hm.
Qed.

Lemma scale_with_max0 (np_mul np_div : npfloat -> Z -> npfloat) (v : Q)
    (image_dim model_dim : Z) :
  model_dim <> 0 ->
  scale_with np_mul np_div (py_max0 (Fin v)) image_dim model_dim
  = lower_with np_mul np_div v image_dim model_dim.
Proof.
  intros Hm. unfold py_max0, lower_with. simpl.
  destruct (Qlt_bool 0 v); [reflexivity |].
  apply scale_with_PyInt_zero, Hm.
Qed.

Lemma scale_with_min (np_mul np_div : npfloat -> Z -> npfloat) (v : Q)
    (image_dim model_dim : Z) :
  model_dim <> 0 ->
  scale_with np_mul np_div (py_min (Fin v) model_dim) image_dim model_dim
  = upper_with np_mul np_div v image_dim model_dim.
Proof.
  intros Hm. unfold py_min, upper_with. simpl.
  destruct (Qlt_bool (inject_Z model_dim) v); [| reflexivity].
  apply scale_with_PyInt_full, Hm.
Qed.

(** [int] of a float truncates toward zero. *)
Lemma py_int_truncates (q : Q) (z : Z) :
  py_int (Fin q) = Ok z ->
  ((0 <= q)%Q -> (inject_Z z <= q)%Q /\ (q < inject_Z (z + 1))%Q)
  /\ ((q <= 0)%Q -> (inject_Z (z - 1) < q)%Q /\ (q <= inject_Z z)%Q).
Proof.
  intros [= <-]. split; intros Hq.
  - rewrite (Qtrunc_nonneg_floor q Hq).
    split; [apply Qfloor_le | apply Qlt_floor].
  - rewrite (Qtrunc_neg_ceiling q Hq).
    split; [apply Qceiling_lt | apply Qle_ceiling].
Qed.

(** C2, where the specification fails: on the row with x1 = 400 the code
    returns x_min = 800, in exact arithmetic as in binary32, and the
    two-sided clamp of the specification gives 640. *)
Lemma two_sided_clamp_fails :
  row_box demo_model demo_image row_off_frame = Ok [800; 37; 640; 375; 1]
  /\ row_box_with np_mul_float32 np_div_float32 demo_model demo_image
       row_off_frame = Ok [800; 37; 640; 375; 1]
  /\ spec_row_box demo_model demo_image 1 (400 # 1) (20 # 1) (500 # 1) (200 # 1)
     = [640; 37; 640; 375; 1]
  /\ row_box demo_model demo_image row_off_frame
     <> Ok (spec_row_box demo_model demo_image
              1 (400 # 1) (20 # 1) (500 # 1) (200 # 1)).
Proof.
  repeat split; try (vm_compute; reflexivity).
  vm_compute. discriminate.
Qed.

(** C2, amended: for a row with finite entries and model dimensions other
    than zero that binary32 holds (at most [2 ^ 24] in absolute value, so
    that every numpy compares them with a coordinate exactly), whatever
    numpy's product and quotient of a float and an integer are, x_min and
    y_min come from x1 and y1 clamped below at 0
    only (0 unless the coordinate is positive, however large it is), x_max
    and y_max from x2 and y2 clamped above at the model dimension only (the
    image dimension if the coordinate exceeds the model dimension, however
    negative it is otherwise); in between the coordinate is multiplied by
    the image dimension, divided by the model dimension, both in floating
    point, and [int] truncates the quotient toward zero. *)
Theorem row_box_clamps (np_mul np_div : npfloat -> Z -> npfloat)
    (self : YOLOXONNX) (image : Image)
    (bn s : npfloat) (c a1 b1 a2 b2 : Q) :
  input_width self <> 0 -> input_height self <> 0 ->
  Z.abs (input_width self) <= 2 ^ 24 ->
  Z.abs (input_height self) <= 2 ^ 24 ->
  row_box_with np_mul np_div self image
    (mkRow bn (Fin c) s (Fin a1) (Fin b1) (Fin a2) (Fin b2))
  = (x_min ← lower_with np_mul np_div a1
               (image_width image) (input_width self);
     y_min ← lower_with np_mul np_div b1
               (image_height image) (input_height self);
     x_max ← upper_with np_mul np_div a2
               (image_width image) (input_width self);
     y_max ← upper_with np_mul np_div b2
               (image_height image) (input_height self);
     Ok [x_min; y_min; x_max; y_max; Qtrunc c])
  /\ forall q z,
       py_int (Fin q) = Ok z ->
       ((0 <= q)%Q -> (inject_Z z <= q)%Q /\ (q < inject_Z (z + 1))%Q)
       /\ ((q <= 0)%Q -> (inject_Z (z - 1) < q)%Q /\ (q <= inject_Z z)%Q).
Proof.
  intros Hw Hh _ _. split; [| apply py_int_truncates].
  unfold row_box_with. cbn [classid x1 y1 x2 y2 py_int].
  rewrite !scale_with_max0, !scale_with_min by assumption.
  reflexivity.
Qed.

Lemma row_box_clamps_witness :
  row_box_with np_mul_float32 np_div_float32 demo_model demo_image
    row_rounding = Ok [20; 17; 200; 38; 1]
  /\ row_box_with np_mul_int np_div_int demo_model demo_image
       row_rounding = Ok [20; 16; 200; 37; 1].
Proof.
  split.
  - destruct (row_box_clamps np_mul_float32 np_div_float32
                demo_model demo_image (Fin 0) (Fin (9 # 10)) 1 (10 # 1)
                (9507089 # 1048576) (100 # 1) (5312785 # 262144)) as [H _].
    + simpl; lia.
    + simpl; lia.
    + simpl; lia.
    + simpl; lia.
    + unfold row_rounding. rewrite H. vm_compute. reflexivity.
  - destruct (row_box_clamps np_mul_int np_div_int
                demo_model demo_image (Fin 0) (Fin (9 # 10)) 1 (10 # 1)
                (9507089 # 1048576) (100 # 1) (5312785 # 262144)) as [H _].
    + simpl; lia.
    + simpl; lia.
    + simpl; lia.
    + simpl; lia.
    + unfold row_rounding. rewrite H. vm_compute. reflexivity.
Defined.

(** In binary32 a large finite coordinate overflows and [int] raises. *)
Example row_box_overflow :
  row_box_with np_mul_float32 np_div_float32 demo_model demo_image row_huge
  = Raise OverflowError.
Proof. vm_compute. reflexivity. Qed.

(** C4: the scenario of section 8.  The row [0, 1, 0.9, 10, 20, 100, 200]
    on a 320 x 256 model, a 640 x 480 image and the threshold 0.35 is kept
    and gives the box [20, 37, 200, 375] with class 1 and the score 0.9. *)
Theorem scenario_row :
  boxes_keep_of demo_model [demo_row] = [demo_row]
  /\ _postprocess demo_model demo_image [demo_row]
     = Ok ([[20; 37; 200; 375; 1]], [[Fin (9 # 10)]]).
Proof. split; vm_compute; reflexivity. Qed.

(** ** The threshold *)

Lemma elem_of_boxes_keep (self : YOLOXONNX) (boxes : list RawRow)
    (box : RawRow) :
  box ∈ boxes_keep_of self boxes
  <-> box ∈ boxes /\ above_threshold self box = true.
Proof.
  rewrite boxes_keep_filter, !list_elem_of_In. apply filter_In.
Qed.

Lemma keep_idxs_numpy_fmap (self : YOLOXONNX) (boxes : list RawRow) :
  keep_idxs_numpy self (scores_of boxes)
  = (fun box => np_gt_float (score box) (float32 (class_score_th self)))
      <$> boxes.
Proof.
  unfold keep_idxs_numpy, scores_of. rewrite <- list_fmap_compose. reflexivity.
Qed.

Lemma elem_of_boxes_keep_numpy (self : YOLOXONNX) (boxes : list RawRow)
    (box : RawRow) :
  box ∈ boxes_keep_numpy self boxes
  <-> box ∈ boxes
      /\ np_gt_float (score box) (float32 (class_score_th self)) = true.
Proof.
  unfold boxes_keep_numpy. rewrite keep_idxs_numpy_fmap, mask_select_fmap.
  rewrite !list_elem_of_In. apply filter_In.
Qed.

(** With a threshold that binary32 holds, the comparison of numpy is the
    exact one. *)
Lemma boxes_keep_numpy_exact (self : YOLOXONNX) (boxes : list RawRow) :
  float32 (class_score_th self) = Fin (class_score_th self) ->
  boxes_keep_numpy self boxes = boxes_keep_of self boxes.
Proof.
  intros Hth. unfold boxes_keep_numpy, boxes_keep_of.
  rewrite keep_idxs_numpy_fmap, keep_idxs_above, Hth. reflexivity.
Qed.

(** The score of the counterexample below is a binary32 value. *)
Example binary32_float32_0_3 : binary32 float32_0_3.
Proof.
  exists 5033165, (-24). split; [reflexivity |]. split; [lia | reflexivity].
Qed.

(** C3, where the specification fails: the threshold is the Python float
    0.3 and the score the binary32 value next to 0.3, which is greater;
    numpy compares the score with the threshold cast to binary32, which is
    the score itself, and drops the row. *)
Lemma score_above_threshold_dropped :
  (class_score_th model_0_3 < float32_0_3)%Q
  /\ score row_score_0_3 = Fin float32_0_3
  /\ boxes_keep_numpy model_0_3 [row_score_0_3] = []
  /\ _postprocess_numpy np_mul_float32 np_div_float32 model_0_3 demo_image
       [row_score_0_3] = Ok ([], []).
Proof. repeat split; vm_compute; reflexivity. Qed.

(** C3, amended: a row is kept if and only if its score is strictly
    greater than [class_score_th] cast to binary32, the value that numpy
    compares with; a row whose score equals the cast threshold is dropped,
    and on a tensor of this one row the function returns nothing exactly
    when the score is at or below the cast threshold.  The "only if" of
    the specification stays: the score of a kept row, a binary32 value, is
    strictly greater than [class_score_th] itself. *)
Theorem keep_iff_score_above (self : YOLOXONNX) (boxes : list RawRow)
    (box : RawRow) (q r : Q) :
  score box = Fin q ->
  float32 (class_score_th self) = Fin r ->
  (box ∈ boxes_keep_numpy self boxes <-> box ∈ boxes /\ (r < q)%Q)
  /\ ((q == r)%Q -> box ∉ boxes_keep_numpy self boxes)
  /\ (forall np_mul np_div image,
        _postprocess_numpy np_mul np_div self image [box] = Ok ([], [])
        <-> (q <= r)%Q)
  /\ (binary32 q -> box ∈ boxes_keep_numpy self boxes ->
      (class_score_th self < q)%Q).
Proof.
  intros Hq Hr.
  assert (Hiff : box ∈ boxes_keep_numpy self boxes
                 <-> box ∈ boxes /\ (r < q)%Q).
  { rewrite elem_of_boxes_keep_numpy, Hq, Hr. simpl.
    rewrite Qlt_bool_iff. reflexivity. }
  split; [exact Hiff |]. split; [| split].
  - intros Heq Hin. apply Hiff in Hin as [_ Hlt].
    rewrite Heq in Hlt. exact (Qlt_irrefl _ Hlt).
  - intros np_mul np_div image. unfold _postprocess_numpy, keep_idxs_numpy.
    simpl. rewrite Hq, Hr. simpl.
    destruct (Qlt_bool r q) eqn:Hlt; simpl.
    + apply Qlt_bool_iff in Hlt. split.
      * destruct (row_box_with np_mul np_div self image box); simpl;
          discriminate.
      * intros Hle. exfalso. exact (Qlt_not_le _ _ Hlt Hle).
    + apply Qlt_bool_false_iff in Hlt. split; [intros _; exact Hlt |].
      reflexivity.
  - intros Hb Hin. apply Hiff in Hin as [_ Hlt].
    apply Qnot_le_lt. intros Hle.
    assert (Hp : 0 < 24) by lia.
    apply (round_to_ge 24 (-149) 128 Hp _ q r Hr Hb) in Hle.
    exact (Qlt_not_le _ _ Hlt Hle).
Qed.

Lemma keep_iff_score_above_witness :
  (row_score_0_3 ∉ boxes_keep_numpy model_0_3 [demo_row; row_score_0_3])
  /\ (demo_row ∈ boxes_keep_numpy model_0_3 [demo_row; row_score_0_3])
  /\ _postprocess_numpy np_mul_float32 np_div_float32 model_0_3 demo_image
       [row_score_0_3] = Ok ([], []).
Proof.
  destruct (keep_iff_score_above model_0_3 [demo_row; row_score_0_3]
              row_score_0_3 float32_0_3 float32_0_3) as (_ & H & H' & _).
  - reflexivity.
  - vm_compute; reflexivity.
  - destruct (keep_iff_score_above model_0_3 [demo_row; row_score_0_3]
                demo_row (9 # 10) float32_0_3) as (H9 & _ & _ & _).
    + reflexivity.
    + vm_compute; reflexivity.
    + split; [apply H; reflexivity |]. split.
      * apply H9. split; [apply list_elem_of_here | vm_compute; reflexivity].
      * apply H'. vm_compute. discriminate.
Defined.

(** A score that is not a number is dropped, an infinite one is kept. *)
Lemma keep_special_scores (self : YOLOXONNX) (boxes : list RawRow)
    (box : RawRow) :
  (score box = NaN \/ score box = NInf -> box ∉ boxes_keep_of self boxes)
  /\ (score box = PInf -> box ∈ boxes -> box ∈ boxes_keep_of self boxes).
Proof.
  rewrite elem_of_boxes_keep. unfold above_threshold. split.
  - intros [-> | ->] [_ H]; discriminate.
  - intros ->. split; [assumption | reflexivity].
Qed.

(** C7: raising the threshold never increases the number of rows that
    survive, nor the lengths of the two returned sequences. *)
Theorem threshold_monotone (self1 self2 : YOLOXONNX) (boxes : list RawRow) :
  (class_score_th self1 <= class_score_th self2)%Q ->
  (length (boxes_keep_of self2 boxes) <= length (boxes_keep_of self1 boxes))%nat
  /\ forall image1 image2 bs1 ss1 bs2 ss2,
       _postprocess self1 image1 boxes = Ok (bs1, ss1) ->
       _postprocess self2 image2 boxes = Ok (bs2, ss2) ->
       (length bs2 <= length bs1)%nat /\ (length ss2 <= length ss1)%nat.
Proof.
  intros Hth.
  assert (Hlen : (length (boxes_keep_of self2 boxes)
                  <= length (boxes_keep_of self1 boxes))%nat).
  { rewrite !boxes_keep_filter.
    induction boxes as [| box boxes IH]; simpl; [lia |].
    destruct (above_threshold self2 box) eqn:H2.
    - assert (H1 : above_threshold self1 box = true).
      { unfold above_threshold in *. destruct (score box) as [q | | |];
          try discriminate; [| reflexivity].
        apply np_gt_Fin. apply np_gt_Fin in H2.
        eapply Qle_lt_trans; eassumption. }
      rewrite H1. simpl. lia.
    - destruct (above_threshold self1 box); simpl; lia. }
  split; [exact Hlen |].
  intros image1 image2 bs1 ss1 bs2 ss2 H1 H2.
  apply postprocess_Ok in H1 as [Hb1 ->]. apply postprocess_Ok in H2 as [Hb2 ->].
  apply Forall2_length in Hb1, Hb2.
  unfold scores_of. rewrite !length_fmap. lia.
Qed.

Lemma threshold_monotone_witness :
  (length (boxes_keep_of demo_model [demo_row; row_low_score])
   <= length (boxes_keep_of (mkYOLOX (5 # 100) 256 320)
                [demo_row; row_low_score]))%nat.
Proof.
  destruct (threshold_monotone (mkYOLOX (5 # 100) 256 320) demo_model
              [demo_row; row_low_score]) as [H _].
  - vm_compute. discriminate.
  - exact H.
Defined.

(** ** The two returned sequences *)

(** C5: the two sequences that [_postprocess] returns have the same
    length, the number of kept rows. *)
Theorem postprocess_lengths (self : YOLOXONNX) (image : Image)
    (boxes : list RawRow) (bs : list (list Z)) (ss : list (list npfloat)) :
  _postprocess self image boxes = Ok (bs, ss) ->
  length bs = length ss
  /\ length bs = length (boxes_keep_of self boxes).
Proof.
  intros Hrun. apply postprocess_Ok in Hrun as [Hbs ->].
  apply Forall2_length in Hbs. unfold scores_of. rewrite length_fmap.
  split; congruence.
Qed.

Lemma postprocess_lengths_witness :
  length [[20; 37; 200; 375; 1]] = length [[Fin (9 # 10)]]
  /\ length [[20; 37; 200; 375; 1]]
     = length (boxes_keep_of demo_model [demo_row; row_low_score]).
Proof.
  apply (postprocess_lengths demo_model demo_image [demo_row; row_low_score]).
  vm_compute; reflexivity.
Defined.

(** C6: with no row at all, or with every row at or below the threshold,
    [_postprocess] returns two empty sequences and raises nothing. *)
Theorem postprocess_empty (self : YOLOXONNX) (image : Image)
    (boxes : list RawRow) :
  boxes = [] \/ Forall (fun box => above_threshold self box = false) boxes ->
  _postprocess self image boxes = Ok ([], []).
Proof.
  intros H.
  assert (Hkeep : boxes_keep_of self boxes = []).
  { rewrite boxes_keep_filter. destruct H as [-> | Hall]; [reflexivity |].
    induction Hall as [| box rows Hbox _ IH]; simpl; [reflexivity |].
    rewrite Hbox. exact IH. }
  rewrite postprocess_spec, Hkeep. reflexivity.
Qed.

Lemma postprocess_empty_witness :
  _postprocess demo_model demo_image [row_low_score; row_at_threshold]
  = Ok ([], []).
Proof.
  apply postprocess_empty. right.
  apply Forall_cons_2; [vm_compute; reflexivity |].
  apply Forall_cons_2; [vm_compute; reflexivity |].
  apply Forall_nil_2.
Defined.



(** A less confident row that comes first stays first. *)
Example postprocess_keeps_tensor_order :
  _postprocess demo_model demo_image
    [ mkRow (Fin 0) (Fin 2) (Fin (5 # 10)) (Fin 0) (Fin 0) (Fin 32) (Fin 32);
      demo_row ]
  = Ok ([[0; 0; 64; 60; 2]; [20; 37; 200; 375; 1]],
        [[Fin (5 # 10)]; [Fin (9 # 10)]]).
Proof. vm_compute. reflexivity. Qed.

(** ** The caller's image *)

Lemma writes_only_bind {A B : Type} (l' : loc) (m : M A) (f : A -> M B) :
  writes_only l' m -> (forall a, writes_only l' (f a)) ->
  writes_only l' (m ≫= f).
Proof.
  intros Hm Hf σ l Hl. unfold mbind, M_bind.
  specialize (Hm σ l Hl). destruct (m σ) as [[a | e] σ']; simpl in *.
  - rewrite (Hf a σ' l Hl). exact Hm.
  - exact Hm.
Qed.

Lemma writes_only_ret {A : Type} (l' : loc) (a : A) :
  writes_only l' (mret a : M A).
Proof. intros σ l _. reflexivity. Qed.

Lemma writes_only_lift {A : Type} (l' : loc) (r : result A) :
  writes_only l' (lift r).
Proof. intros σ l _. reflexivity. Qed.

Lemma writes_only_read (l' l0 : loc) : writes_only l' (read l0).
Proof. intros σ l _. reflexivity. Qed.

Section pipeline_frame.
Context {Tensor : Type}.
Context (cv2_resize : Image -> Z * Z -> Image * result Tensor).
Context (np_transpose : Tensor -> list nat -> result Tensor).
Context (np_ascontiguousarray : Tensor -> Tensor).
Context (np_asarray : list Tensor -> Tensor).
Context (onnx_session_run : Tensor -> result (list RawRow)).
Context (self : YOLOXONNX).

Lemma writes_only_resize (l' : loc) (dsize : Z * Z) :
  writes_only l' (resize cv2_resize l' dsize).
Proof.
  intros σ l Hl. unfold resize.
  destruct (cv2_resize (σ !!! l') dsize) as [image' r]. simpl.
  apply lookup_insert_ne. congruence.
Qed.

Lemma writes_only_preprocess (l' : loc) (swap : list nat) :
  writes_only l'
    (_preprocess cv2_resize np_transpose np_ascontiguousarray self l' swap).
Proof.
  unfold _preprocess. apply writes_only_bind.
  - apply writes_only_resize.
  - intros t. apply writes_only_bind; [apply writes_only_lift |].
    intros t'. apply writes_only_ret.
Qed.

Lemma writes_only_postprocess_at (l' : loc) (boxes : list RawRow) :
  writes_only l' (postprocess_at self l' boxes).
Proof.
  unfold postprocess_at. apply writes_only_bind.
  - apply writes_only_read.
  - intros img. apply writes_only_lift.
Qed.

(** C9: a call leaves every object that exists before it as it was, the
    caller's image among them, whatever the collaborators do with the
    arrays they are handed and whether or not the call raises. *)
Theorem call_leaves_image (image : loc) (σ : gmap loc Image)
    (l : loc) (img : Image) :
  σ !! l = Some img ->
  (__call__ cv2_resize np_transpose np_ascontiguousarray np_asarray
            onnx_session_run self image σ).2 !! l = Some img.
Proof.
  intros Hl. unfold __call__.
  set (body := fun temp_image : loc => _ ≫= _).
  unfold mbind at 1. unfold M_bind, deepcopy. cbv beta iota zeta.
  set (l' := fresh (dom σ)).
  assert (Hne : l <> l').
  { intros ->. apply (is_fresh (dom σ)). apply elem_of_dom. eauto. }
  assert (Hbody : writes_only l' (body l')).
  { unfold body. apply writes_only_bind; [apply writes_only_preprocess |].
    intros t. apply writes_only_bind; [apply writes_only_lift |].
    intros boxes. apply writes_only_postprocess_at. }
  rewrite (Hbody _ l Hne). rewrite lookup_insert_ne by congruence.
  exact Hl.
Qed.

(** What a call returns is what [_postprocess] returns on the copy. *)
Lemma call_Ok_postprocess (image : loc) (σ : gmap loc Image)
    (r : list (list Z) * list (list npfloat)) :
  (__call__ cv2_resize np_transpose np_ascontiguousarray np_asarray
            onnx_session_run self image σ).1 = Ok r ->
  exists boxes,
    _postprocess self (cv2_resize (σ !!! image)
                         (input_width self, input_height self)).1 boxes
    = Ok r.
Proof.
  unfold __call__, _preprocess, postprocess_at, resize, deepcopy, read, lift.
  unfold mbind, mret, M_bind, M_ret. cbv beta iota zeta.
  rewrite lookup_total_insert_eq.
  destruct (cv2_resize (σ !!! image) _) as [image' [t |]]; simpl;
    [| discriminate].
  destruct (np_transpose t _) as [t' |]; simpl; [| discriminate].
  destruct (onnx_session_run _) as [boxes |]; simpl; [| discriminate].
  rewrite lookup_total_insert_eq. intros Hr. exists boxes. exact Hr.
Qed.
End pipeline_frame.

Lemma call_leaves_image_witness :
  (run_pipeline blanking_resize [demo_row] demo_model 1%positive
     {[ 1%positive := demo_image ]}).2 !! 1%positive
  = Some demo_image.
Proof.
  apply call_leaves_image. vm_compute; reflexivity.
Defined.

(** Handed the caller's object itself, the same resize would blank it. *)
Example resize_in_place_overwrites :
  (resize blanking_resize 1%positive (320, 256)
     {[ 1%positive := mkImage 480 640 [7%N] ]}).2 !! 1%positive
  = Some (mkImage 480 640 []).
Proof. vm_compute. reflexivity. Qed.

Example run_pipeline_scenario :
  (run_pipeline faithful_resize [demo_row] demo_model 1%positive
     {[ 1%positive := demo_image ]}).1
  = Ok ([[20; 37; 200; 375; 1]], [[Fin (9 # 10)]]).
Proof. vm_compute. reflexivity. Qed.

(** * Further properties of the program *)

(** ** Rescaling: the frame, nested boxes, special values *)







Lemma scale_PyInt_zero (image_dim model_dim z : Z) :
  scale (PyInt 0) image_dim model_dim = Ok z -> z = 0.
Proof.
  unfold scale. simpl. destruct (model_dim =? 0); simpl; [discriminate |].
  intros [= <-]. apply (Qtrunc_comp _ 0).
  unfold Qdiv. apply Qmult_0_l.
Qed.

Lemma scale_PyInt_full (image_dim model_dim z : Z) :
  scale (PyInt model_dim) image_dim model_dim = Ok z -> z = image_dim.
Proof.
  unfold scale. simpl. destruct (model_dim =? 0) eqn:Hm; simpl; [discriminate |].
  apply Z.eqb_neq in Hm. intros [= <-].
  rewrite (Qtrunc_comp _ (inject_Z image_dim)); [apply Qtrunc_inject_Z |].
  rewrite inject_Z_mult. apply Qscale_full, Hm.
Qed.

(** X4: special values in a kept row.  A minimum that is nan or [-inf] is
    returned as 0, a maximum that is [+inf] as the image dimension; none of
    them makes the row raise. *)
Theorem row_box_special_values (self : YOLOXONNX) (image : Image)
    (box : RawRow) (x_min y_min x_max y_max class_id : Z) :
  row_box self image box = Ok [x_min; y_min; x_max; y_max; class_id] ->
  (x1 box = NaN \/ x1 box = NInf -> x_min = 0)
  /\ (y1 box = NaN \/ y1 box = NInf -> y_min = 0)
  /\ (x2 box = PInf -> x_max = image_width image)
  /\ (y2 box = PInf -> y_max = image_height image).
Proof.
  intros Hb. apply row_box_Ok_inv in Hb
    as (c & a & a' & d & d' & _ & Ha & Ha' & Hd & Hd' & Heq).
  injection Heq as -> -> -> -> _. repeat split.
  - intros [H | H]; rewrite H in Ha; exact (scale_PyInt_zero _ _ _ Ha).
  - intros [H | H]; rewrite H in Ha'; exact (scale_PyInt_zero _ _ _ Ha').
  - intros H. rewrite H in Hd. exact (scale_PyInt_full _ _ _ Hd).
  - intros H. rewrite H in Hd'. exact (scale_PyInt_full _ _ _ Hd').
Qed.

Lemma row_box_special_values_witness :
  (x1 row_special = NaN \/ x1 row_special = NInf -> 0 = 0)
  /\ (y1 row_special = NaN \/ y1 row_special = NInf -> 0 = 0)
  /\ (x2 row_special = PInf -> 640 = image_width demo_image)
  /\ (y2 row_special = PInf -> 480 = image_height demo_image).
Proof.
  apply (row_box_special_values demo_model demo_image row_special
           0 0 640 480 2).
  vm_compute; reflexivity.
Defined.

Lemma np_mul_int_special : special_preserving np_mul_int.
Proof. intros [q' | | |] z q H; [eauto | | |]; exfalso; revert H; simpl;
  repeat (destruct (_ <? _)); discriminate.
Qed.

Lemma np_div_int_special : special_preserving np_div_int.
Proof. intros [q' | | |] z q H; [eauto | | |]; exfalso; revert H; simpl;
  repeat (destruct (_ <? _)); discriminate.
Qed.

Lemma np_mul_float32_special : special_preserving np_mul_float32.
Proof.
  intros f z q. unfold np_mul_float32.
  destruct (float32 (inject_Z z)) as [z32 | | |]; try discriminate.
  destruct (np_mul_int f (Qfloor z32)) as [q' | | |] eqn:H; try discriminate.
  intros _. exact (np_mul_int_special _ _ _ H).
Qed.

Lemma np_div_float32_special : special_preserving np_div_float32.
Proof.
  intros f z q. unfold np_div_float32.
  destruct (float32 (inject_Z z)) as [z32 | | |]; try discriminate.
  destruct (np_div_int f (Qfloor z32)) as [q' | | |] eqn:H; try discriminate.
  intros _. exact (np_div_int_special _ _ _ H).
Qed.

Section special_values.
Context (np_mul np_div : npfloat -> Z -> npfloat).
Context (Hmul : special_preserving np_mul) (Hdiv : special_preserving np_div).

Lemma scale_with_special (f : npfloat) (image_dim model_dim z : Z) :
  scale_with np_mul np_div (NpFloat f) image_dim model_dim = Ok z ->
  exists q : Q, f = Fin q.
Proof.
  unfold scale_with. simpl.
  destruct (np_div (np_mul f image_dim) model_dim) as [q | | |] eqn:H;
    try discriminate.
  intros _. apply Hdiv in H as [q' H]. exact (Hmul _ _ _ H).
Qed.

Lemma scale_max0_Ok_inv (x : npfloat) (image_dim model_dim z : Z) :
  scale_with np_mul np_div (py_max0 x) image_dim model_dim = Ok z ->
  x <> PInf.
Proof.
  intros Hz ->. apply scale_with_special in Hz as [q Hq]. discriminate.
Qed.

Lemma scale_min_Ok_inv (x : npfloat) (image_dim model_dim z : Z) :
  scale_with np_mul np_div (py_min x model_dim) image_dim model_dim = Ok z ->
  x <> NInf /\ x <> NaN.
Proof.
  intros Hz. split; intros ->;
    apply scale_with_special in Hz as [q Hq]; discriminate.
Qed.
End special_values.

(** X5: which special values make a row raise.  Whatever the floating
    point of numpy is, as long as its product and quotient keep infinities
    and nan special, lines 208-212 return a box only for a row whose class
    is finite, whose x1 and y1 are not [+inf], and whose x2 and y2 are
    neither [-inf] nor nan; on any other kept row [int] raises and the
    call ends with that exception. *)
Theorem row_box_Ok_converts (np_mul np_div : npfloat -> Z -> npfloat)
    (self : YOLOXONNX) (image : Image) (box : RawRow) :
  special_preserving np_mul -> special_preserving np_div ->
  (exists b, row_box_with np_mul np_div self image box = Ok b) ->
  row_converts box.
Proof.
  intros Hmul Hdiv [b Hb]. revert Hb. unfold row_box_with.
  destruct (py_int (classid box)) as [c |] eqn:Hc; simpl; [| discriminate].
  destruct (scale_with _ _ (py_max0 (x1 box)) _ _) as [a |] eqn:Ha;
    simpl; [| discriminate].
  destruct (scale_with _ _ (py_max0 (y1 box)) _ _) as [a' |] eqn:Ha';
    simpl; [| discriminate].
  destruct (scale_with _ _ (py_min (x2 box) _) _ _) as [d |] eqn:Hd;
    simpl; [| discriminate].
  destruct (scale_with _ _ (py_min (y2 box) _) _ _) as [d' |] eqn:Hd';
    simpl; [| discriminate].
  intros _. unfold row_converts. split; [| split; [| split; [| split]]].
  - destruct (classid box) as [q | | |]; try discriminate. eauto.
  - eapply (scale_max0_Ok_inv _ _ Hmul Hdiv), Ha.
  - eapply (scale_max0_Ok_inv _ _ Hmul Hdiv), Ha'.
  - eapply (scale_min_Ok_inv _ _ Hmul Hdiv), Hd.
  - eapply (scale_min_Ok_inv _ _ Hmul Hdiv), Hd'.
Qed.

Lemma row_box_Ok_converts_witness : row_converts row_special.
Proof.
  apply (row_box_Ok_converts np_mul_float32 np_div_float32
           demo_model demo_image row_special
           np_mul_float32_special np_div_float32_special).
  exists [0; 0; 640; 480; 2]. vm_compute; reflexivity.
Defined.

Example row_box_nan_x2 :
  row_box demo_model demo_image row_nan_x2 = Raise ValueError
  /\ row_box_with np_mul_float32 np_div_float32 demo_model demo_image
       row_nan_x2 = Raise ValueError.
Proof. split; vm_compute; reflexivity. Qed.

(** ** The whole tensor: errors, shapes, concatenation, thresholds *)

Lemma mapM_Raise_iff {A B : Type} (f : A -> result B) (l : list A) (e : exn) :
  mapM f l = Raise e <->
  exists pre x post,
    l = pre ++ x :: post
    /\ Forall (fun r => exists b, f r = Ok b) pre
    /\ f x = Raise e.
Proof.
  induction l as [| a l IH]; simpl.
  - split; [discriminate |]. intros (pre & x & post & H & _).
    destruct pre; discriminate.
  - split.
    + destruct (f a) as [b |] eqn:Ha; simpl.
      * destruct (mapM f l) as [k |] eqn:Hk; simpl; [discriminate |].
        intros [= ->]. destruct IH as [IH _].
        destruct (IH eq_refl) as (pre & x & post & -> & Hpre & Hx).
        exists (a :: pre), x, post. repeat split; [| exact Hx].
        constructor; [eauto | exact Hpre].
      * intros [= ->]. exists [], a, l. repeat split; [constructor | exact Ha].
    + intros (pre & x & post & Hl & Hpre & Hx). destruct pre as [| a' pre].
      * simpl in Hl. injection Hl as -> ->. rewrite Hx. reflexivity.
      * simpl in Hl. injection Hl as -> ->.
        apply Forall_cons in Hpre as [[b Hb] Hpre]. rewrite Hb. simpl.
        destruct IH as [_ IH]. rewrite IH; [reflexivity |].
        exists pre, x, post. repeat split; assumption.
Qed.

(** X6: [_postprocess] raises exactly when some kept row does; the
    exception is that of the first such row in tensor order, and rows at or
    below the threshold never raise, whatever they hold. *)
Theorem postprocess_Raise_iff (self : YOLOXONNX) (image : Image)
    (boxes : list RawRow) (e : exn) :
  _postprocess self image boxes = Raise e <->
  exists pre box post,
    boxes_keep_of self boxes = pre ++ box :: post
    /\ Forall (fun r => exists b, row_box self image r = Ok b) pre
    /\ row_box self image box = Raise e.
Proof.
  rewrite postprocess_spec, <- mapM_Raise_iff.
  destruct (mapM (row_box self image) (boxes_keep_of self boxes)); simpl.
  - split; discriminate.
  - split; intros [= ->]; reflexivity.
Qed.

Example postprocess_nan_rows :
  _postprocess demo_model demo_image [row_nan_low; demo_row]
  = Ok ([[20; 37; 200; 375; 1]], [[Fin (9 # 10)]])
  /\ _postprocess demo_model demo_image [demo_row; row_nan_x2; row_off_frame]
     = Raise ValueError.
Proof. split; vm_compute; reflexivity. Qed.

(** X7: every returned score is a row of one entry that is strictly above
    [class_score_th], and every returned box has five entries. *)
Theorem postprocess_output_rows (self : YOLOXONNX) (image : Image)
    (boxes : list RawRow) (bs : list (list Z)) (ss : list (list npfloat)) :
  _postprocess self image boxes = Ok (bs, ss) ->
  Forall (fun b => length b = 5%nat) bs
  /\ Forall (fun s => exists x,
                 s = [x] /\ np_gt x (class_score_th self) = true
                 /\ forall q, x = Fin q -> (class_score_th self < q)%Q) ss.
Proof.
  intros Hrun. apply postprocess_Ok in Hrun as [Hbs ->]. split.
  - eapply Forall2_row_box_all; [| exact Hbs].
    intros box b Hb.
    apply row_box_Ok_inv in Hb as (c & a & a' & d & d' & _ & _ & _ & _ & _ & ->).
    reflexivity.
  - unfold scores_of. apply Forall_fmap, Forall_forall. intros box Hin.
    apply elem_of_boxes_keep in Hin as [_ Habove]. simpl.
    exists (score box). split; [reflexivity |]. split; [exact Habove |].
    intros q Hq. unfold above_threshold in Habove. rewrite Hq in Habove.
    apply np_gt_Fin, Habove.
Qed.

Lemma postprocess_output_rows_witness :
  Forall (fun b => length b = 5%nat) [[20; 37; 200; 375; 1]]
  /\ Forall (fun s => exists x,
                 s = [x] /\ np_gt x (class_score_th demo_model) = true
                 /\ forall q, x = Fin q -> (class_score_th demo_model < q)%Q)
            [[Fin (9 # 10)]].
Proof.
  apply (postprocess_output_rows demo_model demo_image
           [row_low_score; demo_row]).
  vm_compute; reflexivity.
Defined.

Lemma boxes_keep_app (self : YOLOXONNX) (a b : list RawRow) :
  boxes_keep_of self (a ++ b) = boxes_keep_of self a ++ boxes_keep_of self b.
Proof. rewrite !boxes_keep_filter. apply List.filter_app. Qed.

(** X8: rows do not interact.  The result on a tensor [a ++ b] is the
    result on [a] followed by the result on [b], and the run on [a ++ b]
    returns exactly when both runs do. *)
Theorem postprocess_app (self : YOLOXONNX) (image : Image)
    (a b : list RawRow) (r : list (list Z) * list (list npfloat)) :
  _postprocess self image (a ++ b) = Ok r <->
  exists ba sa bb sb,
    _postprocess self image a = Ok (ba, sa)
    /\ _postprocess self image b = Ok (bb, sb)
    /\ r = (ba ++ bb, sa ++ sb).
Proof.
  destruct r as [bs ss]. split.
  - intros Hrun. apply postprocess_Ok in Hrun as [Hbs ->].
    rewrite boxes_keep_app in Hbs.
    apply Forall2_app_inv_l in Hbs as (ba & bb & Ha & Hb & ->).
    exists ba, (scores_of (boxes_keep_of self a)),
           bb, (scores_of (boxes_keep_of self b)).
    split; [apply postprocess_Ok; split; [exact Ha | reflexivity] |].
    split; [apply postprocess_Ok; split; [exact Hb | reflexivity] |].
    rewrite boxes_keep_app. unfold scores_of. rewrite fmap_app. reflexivity.
  - intros (ba & sa & bb & sb & Ha & Hb & [= -> ->]).
    apply postprocess_Ok in Ha as [Ha ->]. apply postprocess_Ok in Hb as [Hb ->].
    apply postprocess_Ok. rewrite boxes_keep_app. split.
    + apply Forall2_app; assumption.
    + unfold scores_of. rewrite fmap_app. reflexivity.
Qed.

Example postprocess_app_run :
  _postprocess demo_model demo_image ([demo_row; row_low_score] ++ [row_off_frame])
  = Ok ([[20; 37; 200; 375; 1]] ++ [[800; 37; 640; 375; 1]],
        [[Fin (9 # 10)]] ++ [[Fin (9 # 10)]]).
Proof. vm_compute. reflexivity. Qed.

Lemma row_box_same_dims (self1 self2 : YOLOXONNX) (image : Image)
    (box : RawRow) :
  input_width self1 = input_width self2 ->
  input_height self1 = input_height self2 ->
  row_box self1 image box = row_box self2 image box.
Proof. intros Hw Hh. unfold row_box. rewrite Hw, Hh. reflexivity. Qed.

Lemma above_threshold_mono (self1 self2 : YOLOXONNX) (box : RawRow) :
  (class_score_th self1 <= class_score_th self2)%Q ->
  above_threshold self2 box = true -> above_threshold self1 box = true.
Proof.
  intros Hth. unfold above_threshold.
  destruct (score box) as [q | | |]; try discriminate; [| reflexivity].
  rewrite !np_gt_Fin. intros H. eapply Qle_lt_trans; eassumption.
Qed.

Lemma filter_sublist_outputs {A B C : Type} (R : A -> B -> Prop) (g : A -> C)
    (p1 p2 : A -> bool) (l : list A) (k1 : list B) :
  (forall x, p2 x = true -> p1 x = true) ->
  Forall2 R (List.filter p1 l) k1 ->
  exists k2, Forall2 R (List.filter p2 l) k2
             /\ sublist k2 k1
             /\ sublist (g <$> List.filter p2 l) (g <$> List.filter p1 l).
Proof.
  intros Hp. revert k1. induction l as [| x l IH]; intros k1 H; simpl in *.
  - inversion H; subst. exists []. repeat split; constructor.
  - destruct (p2 x) eqn:H2.
    + rewrite (Hp x H2) in *. inversion H as [| ? y ? k1' Hy Hk]; subst.
      destruct (IH k1' Hk) as (k2 & HR & Hs & Hg).
      exists (y :: k2). repeat split.
      * constructor; assumption.
      * apply sublist_skip, Hs.
      * simpl. apply sublist_skip, Hg.
    + destruct (p1 x) eqn:H1.
      * inversion H as [| ? y ? k1' Hy Hk]; subst.
        destruct (IH k1' Hk) as (k2 & HR & Hs & Hg).
        exists k2. repeat split; [exact HR | |].
        -- apply sublist_cons, Hs.
        -- simpl. apply sublist_cons, Hg.
      * apply IH, H.
Qed.

(** X9: raising the threshold only removes detections.  If the run with
    the lower threshold returns, so does the run with the higher one (same
    model dimensions, same image), and its boxes and scores are
    subsequences of the former ones. *)
Theorem raise_threshold_sublist (self1 self2 : YOLOXONNX) (image : Image)
    (boxes : list RawRow) (bs1 : list (list Z)) (ss1 : list (list npfloat)) :
  (class_score_th self1 <= class_score_th self2)%Q ->
  input_width self1 = input_width self2 ->
  input_height self1 = input_height self2 ->
  _postprocess self1 image boxes = Ok (bs1, ss1) ->
  exists bs2 ss2,
    _postprocess self2 image boxes = Ok (bs2, ss2)
    /\ sublist bs2 bs1 /\ sublist ss2 ss1.
Proof.
  intros Hth Hw Hh Hrun. apply postprocess_Ok in Hrun as [Hbs ->].
  rewrite boxes_keep_filter in *.
  destruct (filter_sublist_outputs
              (fun box b => row_box self1 image box = Ok b)
              (fun box => [score box])
              (above_threshold self1) (above_threshold self2) boxes bs1)
    as (bs2 & HR & Hs & Hg);
    [intros x; apply above_threshold_mono, Hth | exact Hbs |].
  exists bs2, (scores_of (List.filter (above_threshold self2) boxes)).
  split; [| split; [exact Hs | exact Hg]].
  apply postprocess_Ok. rewrite boxes_keep_filter. split; [| reflexivity].
  eapply Forall2_impl; [exact HR |]. intros box b Hb. simpl in Hb.
  rewrite <- (row_box_same_dims self1 self2 image box Hw Hh). exact Hb.
Qed.

Lemma raise_threshold_sublist_witness :
  exists bs2 ss2,
    _postprocess (mkYOLOX (5 # 10) 256 320) demo_image
      [row_low_score; demo_row; row_at_threshold]
    = Ok (bs2, ss2)
    /\ sublist bs2 [[20; 37; 200; 375; 1]; [20; 37; 200; 375; 1]]
    /\ sublist ss2 [[Fin (9 # 10)]; [Fin (35 # 100)]].
Proof.
  apply (raise_threshold_sublist (mkYOLOX (2 # 10) 256 320)
           (mkYOLOX (5 # 10) 256 320)).
  - vm_compute; discriminate.
  - reflexivity.
  - reflexivity.
  - vm_compute; reflexivity.
Defined.

(** ** A call of the pipeline *)

Section pipeline_calls.
Context {Tensor : Type}.
Context (cv2_resize : Image -> Z * Z -> Image * result Tensor).
Context (np_transpose : Tensor -> list nat -> result Tensor).
Context (np_ascontiguousarray : Tensor -> Tensor).
Context (np_asarray : list Tensor -> Tensor).
Context (onnx_session_run : Tensor -> result (list RawRow)).
Context (self : YOLOXONNX).

Local Abbreviation call :=
  (__call__ cv2_resize np_transpose np_ascontiguousarray np_asarray
            onnx_session_run self).

(** The tensor handed to the engine. *)
Local Abbreviation inferece_image_of t :=
  (np_asarray [np_ascontiguousarray t]).

Lemma call_fst (image : loc) (σ : gmap loc Image) :
  (call image σ).1
  = (t ← (cv2_resize (σ !!! image)
            (input_width self, input_height self)).2;
     t' ← np_transpose t [2; 0; 1]%nat;
     boxes ← onnx_session_run (inferece_image_of t');
     _postprocess self
       (cv2_resize (σ !!! image) (input_width self, input_height self)).1
       boxes).
Proof.
  unfold __call__, _preprocess, postprocess_at, resize, deepcopy, read, lift.
  unfold mbind, mret, M_bind, M_ret, result_bind. cbv beta iota zeta.
  rewrite lookup_total_insert_eq.
  destruct (cv2_resize (σ !!! image) _) as [image' [t |]]; simpl;
    [| reflexivity].
  destruct (np_transpose t _) as [t' |]; simpl; [| reflexivity].
  destruct (onnx_session_run _) as [boxes |]; simpl; [| reflexivity].
  rewrite lookup_total_insert_eq. reflexivity.
Qed.

Lemma call_snd (image : loc) (σ : gmap loc Image) :
  (call image σ).2
  = <[fresh (dom σ) :=
        (cv2_resize (σ !!! image) (input_width self, input_height self)).1]>
      (<[fresh (dom σ) := σ !!! image]> σ).
Proof.
  unfold __call__, _preprocess, postprocess_at, resize, deepcopy, read, lift.
  unfold mbind, mret, M_bind, M_ret. cbv beta iota zeta.
  rewrite lookup_total_insert_eq.
  destruct (cv2_resize (σ !!! image) _) as [image' [t |]]; simpl;
    [| reflexivity].
  destruct (np_transpose t _) as [t' |]; simpl; [| reflexivity].
  destruct (onnx_session_run _) as [boxes |]; simpl; reflexivity.
Qed.

(** X10: a call keeps no state.  After any call, a call on an image that
    existed before it returns what it would have returned without the
    earlier call; in particular two calls on the same image return the
    same. *)
Theorem call_independent_of_earlier_calls (image image' : loc)
    (σ : gmap loc Image) :
  is_Some (σ !! image') ->
  (call image' (call image σ).2).1 = (call image' σ).1.
Proof.
  intros Hin. rewrite !call_fst, call_snd.
  assert (Hne : fresh (dom σ) <> image').
  { intros <-. apply (is_fresh (dom σ)). apply elem_of_dom, Hin. }
  rewrite !lookup_total_insert_ne by exact Hne. reflexivity.
Qed.

End pipeline_calls.

Lemma call_independent_of_earlier_calls_witness :
  (run_pipeline blanking_resize [demo_row] demo_model 1%positive
     (run_pipeline blanking_resize [demo_row] demo_model 1%positive
        {[ 1%positive := demo_image ]}).2).1
  = (run_pipeline blanking_resize [demo_row] demo_model 1%positive
       {[ 1%positive := demo_image ]}).1.
Proof.
  apply call_independent_of_earlier_calls.
  exists demo_image. vm_compute; reflexivity.
Defined.

(** A frame without a channel axis: the transposition raises, the call
    ends with that exception and the frame is as it was. *)
Example call_transpose_error :
  __call__ faithful_resize (fun _ _ => Raise ValueError) (fun t => t)
           (fun _ => tt) (fun _ => Ok [demo_row]) demo_model 1%positive
           {[ 1%positive := demo_image ]}
  = (Raise ValueError,
     {[ 1%positive := demo_image; 2%positive := demo_image ]}).
Proof. vm_compute. reflexivity. Qed.

Example call_engine_error :
  (__call__ faithful_resize (fun t _ => Ok t) (fun t => t) (fun _ => tt)
            (fun _ => Raise EngineError) demo_model 1%positive
            {[ 1%positive := demo_image ]}).1
  = Raise EngineError.
Proof. vm_compute. reflexivity. Qed.

(** ** The command line *)

Lemma is_digit_chars (c : ascii) :
  is_digit c = true ->
  is_underscore c = false /\ is_space c = false
  /\ Ascii.eqb c "+" = false /\ Ascii.eqb c "-" = false.
Proof.
  destruct c as [[] [] [] [] [] [] [] []];
    vm_compute; intros H; try discriminate H; repeat split.
Qed.

Lemma skip_spaces_split (p : list ascii) :
  exists ws, p = ws ++ skip_spaces p /\ Forall (fun c => is_space c = true) ws.
Proof.
  induction p as [| c p (ws & Hp & Hws)]; simpl.
  - exists []. split; [reflexivity | constructor].
  - destruct (is_space c) eqn:Hc.
    + exists (c :: ws). split; [simpl; congruence | constructor; assumption].
    + exists []. split; [reflexivity | constructor].
Qed.

Lemma skip_spaces_nil (p : list ascii) :
  skip_spaces p = [] -> Forall (fun c => is_space c = true) p.
Proof.
  intros H. destruct (skip_spaces_split p) as (ws & Hp & Hws).
  rewrite H, app_nil_r in Hp. subst. exact Hws.
Qed.

Lemma int_char_space (c : ascii) : is_space c = true -> int_char c = true.
Proof.
  intros H. unfold int_char. rewrite H.
  destruct (is_digit c), (is_underscore c); reflexivity.
Qed.

Lemma scan_digits_split (p : list ascii) :
  forall prev digits acc n v rest,
    scan_digits prev digits acc p = Some (n, v, rest) ->
    exists ds, p = ds ++ rest /\ Forall (fun c => int_char c = true) ds.
Proof.
  induction p as [| c p IH]; intros prev digits acc n v rest; simpl.
  - destruct (is_underscore prev); [discriminate |].
    intros [= <- <- <-]. exists []. split; [reflexivity | constructor].
  - destruct (is_underscore c) eqn:Hu.
    + destruct (is_underscore prev); [discriminate |]. intros H.
      apply IH in H as (ds & -> & Hds). exists (c :: ds).
      split; [reflexivity |]. constructor; [| exact Hds].
      unfold int_char. rewrite Hu. destruct (is_digit c); reflexivity.
    + destruct (digit_value c) as [d |] eqn:Hd.
      * intros H. apply IH in H as (ds & -> & Hds). exists (c :: ds).
        split; [reflexivity |]. constructor; [| exact Hds].
        unfold int_char, is_digit. rewrite Hd. reflexivity.
      * destruct (is_underscore prev); [discriminate |].
        intros [= <- <- <-]. exists []. split; [reflexivity | constructor].
Qed.

Lemma parse_digits_chars (max_str_digits : nat) (p : list ascii) (v : Z) :
  parse_digits max_str_digits p = Ok v ->
  Forall (fun c => int_char c = true) p.
Proof.
  unfold parse_digits.
  destruct (match p with c :: _ => is_underscore c | [] => false end);
    [discriminate |].
  destruct (scan_digits "000" 0 0 p) as [[[n w] rest] |] eqn:Hscan;
    [| discriminate].
  destruct (n =? 0)%nat; [discriminate |].
  destruct ((640 <? n) && (0 <? max_str_digits)
            && (max_str_digits <? n))%nat;
    [discriminate |].
  destruct (skip_spaces rest) eqn:Hrest; [| discriminate]. intros _.
  apply scan_digits_split in Hscan as (ds & -> & Hds).
  apply Forall_app. split; [exact Hds |].
  eapply Forall_impl; [apply skip_spaces_nil, Hrest |].
  intros c. apply int_char_space.
Qed.

Lemma parse_digits_Raise (max_str_digits : nat) (p : list ascii) (e : exn) :
  parse_digits max_str_digits p = Raise e -> e = ValueError.
Proof.
  unfold parse_digits.
  destruct (match p with c :: _ => is_underscore c | [] => false end);
    [congruence |].
  destruct (scan_digits "000" 0 0 p) as [[[n w] rest] |]; [| congruence].
  destruct (n =? 0)%nat; [congruence |].
  destruct ((640 <? n) && (0 <? max_str_digits)
            && (max_str_digits <? n))%nat;
    [congruence |].
  destruct (skip_spaces rest); [discriminate | congruence].
Qed.

Lemma int_of_str_Raise (max_str_digits : nat) (s : string) (e : exn) :
  int_of_str max_str_digits s = Raise e -> e = ValueError.
Proof.
  unfold int_of_str.
  destruct (skip_spaces (String.list_ascii_of_string s)) as [| c str'].
  - apply parse_digits_Raise.
  - destruct (Ascii.eqb c "+"); [apply parse_digits_Raise |].
    destruct (Ascii.eqb c "-"); [| apply parse_digits_Raise].
    destruct (parse_digits max_str_digits str') eqn:Hp; simpl;
      [discriminate |].
    intros [= <-]. eapply parse_digits_Raise, Hp.
Qed.

Lemma int_of_str_chars (max_str_digits : nat) (s : string) (v : Z) :
  int_of_str max_str_digits s = Ok v ->
  Forall (fun c => int_char c = true) (String.list_ascii_of_string s).
Proof.
  unfold int_of_str.
  destruct (skip_spaces_split (String.list_ascii_of_string s))
    as (ws & Hs & Hws).
  rewrite Hs at 2.
  assert (Hws' : Forall (fun c => int_char c = true) ws).
  { eapply Forall_impl; [exact Hws |]. intros c. apply int_char_space. }
  destruct (skip_spaces (String.list_ascii_of_string s)) as [| c str'].
  - intros _. rewrite app_nil_r. exact Hws'.
  - intros H. apply Forall_app. split; [exact Hws' |].
    destruct (Ascii.eqb c "+") eqn:Hplus.
    { apply parse_digits_chars in H. constructor; [| exact H].
      unfold int_char. rewrite Hplus.
      destruct (is_digit c), (is_underscore c), (is_space c); reflexivity. }
    destruct (Ascii.eqb c "-") eqn:Hminus.
    { destruct (parse_digits max_str_digits str') eqn:Hp; [| discriminate].
      apply parse_digits_chars in Hp. constructor; [| exact Hp].
      unfold int_char. rewrite Hminus.
      destruct (is_digit c), (is_underscore c), (is_space c),
        (Ascii.eqb c "+"); reflexivity. }
    eapply parse_digits_chars, H.
Qed.

Lemma video_source_of_Raise (max_str_digits : nat) (video : string) :
  (exists e, int_of_str max_str_digits video = Raise e) ->
  video_source_of max_str_digits video = Ok (VideoFile video).
Proof.
  intros [e He]. pose proof (int_of_str_Raise _ _ _ He) as ->.
  unfold video_source_of, is_parsable_to_int. rewrite He. reflexivity.
Qed.

(** X12: a name is not taken for a camera.  If the [--video] argument
    holds one ASCII character that is no digit, underscore, blank or sign
    (a letter, a dot, a slash), [cv2.VideoCapture] receives the string
    itself and nothing raises. *)
Theorem video_source_file (max_str_digits : nat) (video : string)
    (c : ascii) :
  c ∈ String.list_ascii_of_string video ->
  (N_of_ascii c < 128)%N -> int_char c = false ->
  video_source_of max_str_digits video = Ok (VideoFile video).
Proof.
  intros Hin _ Hc. apply video_source_of_Raise.
  destruct (int_of_str max_str_digits video) as [v | e] eqn:Hint; [| eauto].
  exfalso. apply int_of_str_chars in Hint.
  rewrite Forall_forall in Hint. specialize (Hint c Hin). congruence.
Qed.

Lemma video_source_file_witness :
  video_source_of 4300 "video_01.mp4" = Ok (VideoFile "video_01.mp4").
Proof.
  apply (video_source_file 4300 "video_01.mp4" "."%char).
  - vm_compute. do 8 apply list_elem_of_further. apply list_elem_of_here.
  - reflexivity.
  - reflexivity.
Defined.

Lemma scan_digits_all (ds : list ascii) :
  forall prev digits acc,
    Forall (fun c => is_digit c = true) ds ->
    is_underscore prev = false ->
    scan_digits prev digits acc ds
    = Some ((digits + length ds)%nat,
            fold_left (fun a c => 10 * a + default 0 (digit_value c)) ds acc,
            []).
Proof.
  induction ds as [| c ds IH]; intros prev digits acc Hds Hprev; simpl.
  - rewrite Hprev, Nat.add_0_r. reflexivity.
  - apply Forall_cons in Hds as [Hc Hds].
    destruct (is_digit_chars c Hc) as (Hu & _).
    rewrite Hu. unfold is_digit in Hc.
    destruct (digit_value c) as [d |]; [| discriminate]. simpl.
    rewrite (IH c (S digits) (10 * acc + d) Hds Hu).
    rewrite Nat.add_succ_r. reflexivity.
Qed.

Lemma parse_digits_all (max_str_digits : nat) (ds : list ascii) :
  ds <> [] -> Forall (fun c => is_digit c = true) ds ->
  (max_str_digits = 0 \/ length ds <= max_str_digits
   \/ length ds <= 640)%nat ->
  parse_digits max_str_digits ds = Ok (decimal_value ds).
Proof.
  intros Hne Hds Hmax. unfold parse_digits.
  rewrite (scan_digits_all ds "000" 0 0 Hds eq_refl).
  destruct ds as [| c ds]; [contradiction |].
  apply Forall_cons in Hds as [Hc _].
  destruct (is_digit_chars c Hc) as (-> & _). simpl.
  assert (Hlim : ((640 <? S (length ds)) && (0 <? max_str_digits)
                  && (max_str_digits <? S (length ds)))%nat = false).
  { destruct Hmax as [-> | [Hle | Hle]].
    - apply andb_false_iff. left. apply andb_false_iff. right. reflexivity.
    - apply andb_false_iff. right. apply Nat.ltb_ge. exact Hle.
    - apply andb_false_iff. left. apply andb_false_iff. left.
      apply Nat.ltb_ge. exact Hle. }
  rewrite Hlim. reflexivity.
Qed.

Lemma skip_spaces_digit (c : ascii) (p : list ascii) :
  is_digit c = true -> skip_spaces (c :: p) = c :: p.
Proof.
  intros Hc. destruct (is_digit_chars c Hc) as (_ & Hs & _).
  simpl. rewrite Hs. reflexivity.
Qed.

(** X13: a number is taken for a camera.  If the [--video] argument is
    made of decimal digits, no more of them than the interpreter's limit
    or than 640, [cv2.VideoCapture] receives their value as an index; with a minus sign
    in front it receives the negated value, with a plus sign the value. *)
Theorem video_source_camera (max_str_digits : nat) (video : string) :
  String.list_ascii_of_string video <> [] ->
  Forall (fun c => is_digit c = true) (String.list_ascii_of_string video) ->
  (max_str_digits = 0
   \/ length (String.list_ascii_of_string video) <= max_str_digits
   \/ length (String.list_ascii_of_string video) <= 640)%nat ->
  video_source_of max_str_digits video
  = Ok (CameraIndex (decimal_value (String.list_ascii_of_string video)))
  /\ video_source_of max_str_digits (String "-" video)
     = Ok (CameraIndex
             (- decimal_value (String.list_ascii_of_string video)))
  /\ video_source_of max_str_digits (String "+" video)
     = Ok (CameraIndex (decimal_value (String.list_ascii_of_string video))).
Proof.
  intros Hne Hds Hmax.
  pose proof (parse_digits_all max_str_digits _ Hne Hds Hmax) as Hparse.
  assert (Hplain : int_of_str max_str_digits video
                   = Ok (decimal_value (String.list_ascii_of_string video))).
  { unfold int_of_str.
    destruct (String.list_ascii_of_string video) as [| c p] eqn:Hs;
      [contradiction |].
    pose proof Hds as Hds'. apply Forall_cons in Hds' as [Hc _].
    rewrite (skip_spaces_digit c p Hc).
    destruct (is_digit_chars c Hc) as (_ & _ & -> & ->). exact Hparse. }
  assert (Hminus : int_of_str max_str_digits (String "-" video)
                   = Ok (- decimal_value
                             (String.list_ascii_of_string video))).
  { unfold int_of_str. simpl. rewrite Hparse. reflexivity. }
  assert (Hplus : int_of_str max_str_digits (String "+" video)
                  = Ok (decimal_value (String.list_ascii_of_string video))).
  { unfold int_of_str. simpl. exact Hparse. }
  unfold video_source_of, is_parsable_to_int.
  rewrite Hplain, Hminus, Hplus. repeat split; reflexivity.
Qed.

Lemma video_source_camera_witness :
  video_source_of 4300 "0" = Ok (CameraIndex 0)
  /\ video_source_of 4300 "-0" = Ok (CameraIndex 0)
  /\ video_source_of 4300 "+0" = Ok (CameraIndex 0).
Proof.
  apply (video_source_camera 4300 "0").
  - discriminate.
  - repeat constructor.
  - right. left. simpl. lia.
Defined.

Example video_source_blanks_and_underscores :
  video_source_of 4300 " 1_0 " = Ok (CameraIndex 10)
  /\ video_source_of 4300 "1__0" = Ok (VideoFile "1__0")
  /\ video_source_of 4300 "" = Ok (VideoFile "").
Proof. repeat split; vm_compute; reflexivity. Qed.

(** X14: for each of the three choices of [--execution_provider], the
    providers are a tail of the constructor's default list and end with
    the CPU provider: the last one for [cpu], the last two for [cuda], the
    default list itself for [tensorrt]. *)
Theorem select_providers_fallback (execution_provider : string) :
  execution_provider ∈ ["cpu"; "cuda"; "tensorrt"] ->
  exists providers,
    select_providers execution_provider = Some providers
    /\ providers `suffix_of` default_providers
    /\ last providers = Some (ProviderName "CPUExecutionProvider")
    /\ (execution_provider = "cpu" -> length providers = 1%nat)
    /\ (execution_provider = "cuda" -> length providers = 2%nat)
    /\ (execution_provider = "tensorrt" -> providers = default_providers).
Proof.
  rewrite !elem_of_cons, elem_of_nil. intros [-> | [-> | [-> | []]]].
  - exists [ProviderName "CPUExecutionProvider"].
    repeat split; try discriminate.
    exists [tensorrt_provider; ProviderName "CUDAExecutionProvider"].
    reflexivity.
  - exists [ProviderName "CUDAExecutionProvider";
            ProviderName "CPUExecutionProvider"].
    repeat split; try discriminate.
    exists [tensorrt_provider]. reflexivity.
  - exists default_providers. repeat split; try discriminate.
    exists []. reflexivity.
Qed.

Lemma select_providers_fallback_witness :
  exists providers,
    select_providers "cuda" = Some providers
    /\ providers `suffix_of` default_providers
    /\ last providers = Some (ProviderName "CPUExecutionProvider")
    /\ ("cuda" = "cpu" -> length providers = 1%nat)
    /\ ("cuda" = "cuda" -> length providers = 2%nat)
    /\ ("cuda" = "tensorrt" -> providers = default_providers).
Proof.
  apply (select_providers_fallback "cuda").
  apply list_elem_of_further, list_elem_of_here.
Defined.

(** A value that the command line refuses leaves [providers] at [None]. *)
Example select_providers_other :
  select_providers "gpu" = None.
Proof. reflexivity. Qed.

(** ** Drawing *)

Lemma postprocess_shapes (self : YOLOXONNX) (image : Image)
    (boxes : list RawRow) (bs : list (list Z)) (ss : list (list npfloat)) :
  _postprocess self image boxes = Ok (bs, ss) ->
  Forall (fun b => length b = 5%nat) bs
  /\ Forall (fun s => length s = 1%nat) ss
  /\ length bs = length ss.
Proof.
  intros Hrun. apply postprocess_Ok in Hrun as [Hbs ->]. repeat split.
  - eapply Forall2_row_box_all; [| exact Hbs]. intros box b Hb.
    apply row_box_Ok_inv in Hb
      as (c & a & a' & d & d' & _ & _ & _ & _ & _ & ->).
    reflexivity.
  - unfold scores_of. apply Forall_fmap, Forall_forall. reflexivity.
  - apply Forall2_length in Hbs. unfold scores_of. rewrite length_fmap.
    congruence.
Qed.

Lemma draw_detection_Some (format_2f : npfloat -> string) (width : Z)
    (box : list Z) (score : list npfloat) :
  length box = 5%nat -> length score = 1%nat ->
  exists cmds, draw_detection format_2f width box score = Some cmds
               /\ length cmds = 4%nat.
Proof.
  intros Hb Hs.
  destruct box as [| b0 [| b1 [| b2 [| b3 [| b4 [| ? ?]]]]]]; try discriminate.
  destruct score as [| s0 [| ? ?]]; try discriminate.
  eexists. split; reflexivity.
Qed.

Lemma draw_detections_Some (format_2f : npfloat -> string) (width : Z)
    (bs : list (list Z)) :
  forall ss : list (list npfloat),
    Forall (fun b => length b = 5%nat) bs ->
    Forall (fun s => length s = 1%nat) ss ->
    exists cmds, draw_detections format_2f width (zip bs ss) = Some cmds
                 /\ length cmds = (4 * length (zip bs ss))%nat.
Proof.
  induction bs as [| b bs IH]; intros ss Hbs Hss; simpl.
  - exists []. split; reflexivity.
  - destruct ss as [| s ss]; simpl; [exists []; split; reflexivity |].
    apply Forall_cons in Hbs as [Hb Hbs]. apply Forall_cons in Hss as [Hs Hss].
    destruct (draw_detection_Some format_2f width b s Hb Hs)
      as (cmds & Hcmds & Hlen).
    destruct (IH ss Hbs Hss) as (rest & Hrest & Hlen').
    exists (cmds ++ rest). rewrite Hcmds. simpl. rewrite Hrest. simpl.
    split; [reflexivity |]. rewrite length_app. lia.
Qed.

(** X15: the drawing fits the detector.  On the boxes and scores that
    [_postprocess] returns, no index of the drawing loop is out of range,
    and the frame receives two texts for the timing and two rectangles and
    two texts for each detection. *)
Theorem annotate_postprocess_output (format_2f : npfloat -> string)
    (elapsed : string) (width : Z) (self : YOLOXONNX) (image : Image)
    (boxes : list RawRow) (bs : list (list Z)) (ss : list (list npfloat)) :
  _postprocess self image boxes = Ok (bs, ss) ->
  exists cmds,
    annotate format_2f elapsed width bs ss = Some cmds
    /\ length cmds = (2 + 4 * length bs)%nat.
Proof.
  intros Hrun. apply postprocess_shapes in Hrun as (Hbs & Hss & Hlen).
  destruct (draw_detections_Some format_2f width bs ss Hbs Hss)
    as (cmds & Hcmds & Hn).
  unfold annotate. rewrite Hcmds. simpl. eexists. split; [reflexivity |].
  simpl. rewrite Hn, length_zip_with. lia.
Qed.

Lemma annotate_postprocess_output_witness :
  exists cmds,
    annotate demo_format "1.00 ms" 640
      [[20; 37; 200; 375; 1]; [800; 37; 640; 375; 1]]
      [[Fin (9 # 10)]; [Fin (9 # 10)]] = Some cmds
    /\ length cmds = (2 + 4 * 2)%nat.
Proof.
  apply (annotate_postprocess_output demo_format "1.00 ms" 640
           demo_model demo_image [demo_row; row_low_score; row_off_frame]).
  vm_compute; reflexivity.
Defined.

(** Without the detector's shapes the loop does raise. *)
Example annotate_short_box :
  annotate demo_format "1.00 ms" 640 [[20; 37; 200; 375]] [[Fin (9 # 10)]]
  = None.
Proof. reflexivity. Qed.

Lemma label_org_bounds (box0 box1 width : Z) :
  0 <= box0 -> 50 <= width ->
  0 <= (label_org box0 box1 width).1 <= width - 50
  /\ 16 <= (label_org box0 box1 width).2.
Proof.
  intros H0 Hw. unfold label_org. simpl.
  destruct (Z.ltb_spec (box0 + 50) width);
    destruct (Z.gtb_spec (box1 - 25) 0); lia.
Qed.

Lemma draw_detection_labels (format_2f : npfloat -> string) (image : Image)
    (box : list Z) (score : list npfloat) (cmds : list draw_cmd) :
  50 <= image_width image -> box_one_sided image box ->
  draw_detection format_2f (image_width image) box score = Some cmds ->
  Forall (label_within (image_width image)) cmds.
Proof.
  intros Hw Hbox.
  destruct box as [| b0 [| b1 [| b2 [| b3 [| b4 [| ? ?]]]]]];
    try contradiction.
  destruct score as [| s0 ?]; [discriminate |].
  simpl in Hbox. destruct Hbox as (H0 & _).
  unfold draw_detection. simpl. intros [= <-].
  pose proof (label_org_bounds b0 b1 (image_width image) H0 Hw) as Hl.
  assert (Hlab : forall text c th,
             label_within (image_width image)
               (putText text (label_org b0 b1 (image_width image))
                        FONT_HERSHEY_SIMPLEX (7 # 10) c th LINE_AA)).
  { intros text c th. unfold label_within.
    destruct (label_org b0 b1 (image_width image)) as [x y]. exact Hl. }
  apply Forall_cons_2; [exact I |]. apply Forall_cons_2; [exact I |].
  apply Forall_cons_2; [apply Hlab |]. apply Forall_cons_2; [apply Hlab |].
  apply Forall_nil_2.
Qed.

Lemma draw_detections_labels (format_2f : npfloat -> string) (image : Image)
    (bs : list (list Z)) :
  forall (ss : list (list npfloat)) (cmds : list draw_cmd),
    50 <= image_width image -> Forall (box_one_sided image) bs ->
    draw_detections format_2f (image_width image) (zip bs ss) = Some cmds ->
    Forall (label_within (image_width image)) cmds.
Proof.
  induction bs as [| b bs IH]; intros ss cmds Hw Hbs; simpl.
  - intros [= <-]. constructor.
  - destruct ss as [| s ss]; simpl; [intros [= <-]; constructor |].
    apply Forall_cons in Hbs as [Hb Hbs].
    destruct (draw_detection format_2f (image_width image) b s)
      as [c1 |] eqn:H1; simpl; [| discriminate].
    destruct (draw_detections format_2f (image_width image) (zip bs ss))
      as [c2 |] eqn:H2; simpl; [| discriminate].
    intros [= <-]. apply Forall_app. split.
    + eapply draw_detection_labels; eassumption.
    + eapply IH; eassumption.
Qed.

(** X16: where the texts go.  On an image at least 60 wide (dimensions not
    negative, model dimensions positive), every text drawn for the output
    of [_postprocess] starts at an x between 0 and [width - 50] and at a y
    of 16 or more, however far outside the image the box is. *)
Theorem annotate_text_positions (format_2f : npfloat -> string)
    (elapsed : string) (self : YOLOXONNX) (image : Image)
    (boxes : list RawRow) (bs : list (list Z)) (ss : list (list npfloat))
    (cmds : list draw_cmd) :
  60 <= image_width image -> 0 <= image_height image ->
  0 < input_width self -> 0 < input_height self ->
  _postprocess self image boxes = Ok (bs, ss) ->
  annotate format_2f elapsed (image_width image) bs ss = Some cmds ->
  Forall (label_within (image_width image)) cmds.
Proof.
  intros Hiw Hih Hw Hh Hrun. apply postprocess_Ok in Hrun as [Hbs _].
  assert (Hone : Forall (box_one_sided image) bs).
  { eapply Forall2_row_box_all; [| exact Hbs]. intros box b.
    apply row_box_one_sided; [lia | assumption ..]. }
  unfold annotate.
  destruct (draw_detections format_2f (image_width image) (zip bs ss))
    as [c |] eqn:Hc; simpl; [| discriminate].
  intros [= <-].
  apply Forall_cons_2; [simpl; lia |]. apply Forall_cons_2; [simpl; lia |].
  eapply draw_detections_labels; [lia | exact Hone | exact Hc].
Qed.

Lemma annotate_text_positions_witness :
  Forall (label_within (image_width demo_image))
    (default [] (annotate demo_format "1.00 ms" 640
                   [[800; 37; 640; 375; 1]] [[Fin (9 # 10)]])).
Proof.
  apply (annotate_text_positions demo_format "1.00 ms" demo_model demo_image
           [row_off_frame] [[800; 37; 640; 375; 1]] [[Fin (9 # 10)]]).
  - simpl; lia.
  - simpl; lia.
  - simpl; lia.
  - simpl; lia.
  - vm_compute; reflexivity.
  - vm_compute; reflexivity.
Defined.

(** ** The frame loop *)

Lemma main_loop_passes (format_2f : npfloat -> string)
    (model : Image -> result (list (list Z) * list (list npfloat)))
    (pre : list tick) (frames : list annotated) (rest : list tick) :
  Forall2 (tick_passes model format_2f) pre frames ->
  main_loop format_2f model (pre ++ rest)
  = (concat (shown_and_written <$> frames)
       ++ (main_loop format_2f model rest).1,
     (main_loop format_2f model rest).2).
Proof.
  intros H. induction H as [| t frame pre frames Ht _ IH]; simpl.
  - destruct (main_loop format_2f model rest); reflexivity.
  - destruct Ht as (Hopen & (image & Hread & Hproc) & Hkey).
    rewrite Hopen, Hread, Hproc. apply Z.eqb_neq in Hkey. rewrite Hkey.
    rewrite IH. reflexivity.
Qed.

Lemma main_loop_stops (format_2f : npfloat -> string)
    (model : Image -> result (list (list Z) * list (list npfloat)))
    (t : tick) (post : list tick) :
  tick_stops model format_2f t ->
  main_loop format_2f model (t :: post) = ([], LoopLeft).
Proof.
  intros [Hclosed | [Hread | (image & frame & Hread & Hproc & Hkey)]]; simpl.
  - rewrite Hclosed. reflexivity.
  - rewrite Hread. destruct (cap_isOpened t); reflexivity.
  - rewrite Hread, Hproc, Hkey. destruct (cap_isOpened t); reflexivity.
Qed.

(** X17: how a run ends.  The frames of the iterations before the first
    one that leaves the loop are shown and written, each once and in
    order; the frame on which ESC is pressed is processed but neither
    shown nor written; then the writer and the capture are released.
    What the capture would have answered afterwards does not matter. *)
Theorem main_frames_until_stop (format_2f : npfloat -> string)
    (model : Image -> result (list (list Z) * list (list npfloat)))
    (pre : list tick) (frames : list annotated) (t : tick)
    (post : list tick) :
  Forall2 (tick_passes model format_2f) pre frames ->
  tick_stops model format_2f t ->
  main_frames format_2f model (pre ++ t :: post)
  = (concat (shown_and_written <$> frames)
       ++ [video_writer_release; cap_release],
     LoopLeft).
Proof.
  intros Hpre Hstop. unfold main_frames.
  rewrite (main_loop_passes _ _ _ _ _ Hpre), (main_loop_stops _ _ _ _ Hstop).
  simpl. rewrite app_nil_r. reflexivity.
Qed.

Lemma demo_tick_passes (key : Z) :
  key <> 27 -> tick_passes demo_detector demo_format (demo_tick key) demo_frame.
Proof.
  intros Hkey. split; [reflexivity |]. split; [| exact Hkey].
  exists demo_image. split; vm_compute; reflexivity.
Defined.

Lemma main_frames_until_stop_witness :
  main_frames demo_format demo_detector
    ([demo_tick (-1); demo_tick 113] ++ demo_tick 27 :: [demo_tick (-1)])
  = ([imshow demo_frame; video_write demo_frame;
      imshow demo_frame; video_write demo_frame;
      video_writer_release; cap_release],
     LoopLeft).
Proof.
  apply (main_frames_until_stop demo_format demo_detector
           [demo_tick (-1); demo_tick 113] [demo_frame; demo_frame]).
  - constructor; [apply demo_tick_passes; lia |].
    constructor; [apply demo_tick_passes; lia |].
    constructor.
  - right. right. exists demo_image, demo_frame.
    repeat split; vm_compute; reflexivity.
Defined.

(** X18: an exception leaves the handles open.  If the detector raises on
    a frame (or the drawing does), the run ends with that exception: the
    earlier frames have been shown and written, the frame itself has not,
    and neither the writer nor the capture is released. *)
Theorem main_frames_raise (format_2f : npfloat -> string)
    (model : Image -> result (list (list Z) * list (list npfloat)))
    (pre : list tick) (frames : list annotated) (t : tick)
    (post : list tick) (image : Image) (e : main_exn) :
  Forall2 (tick_passes model format_2f) pre frames ->
  cap_isOpened t = true -> cap_read t = Some image ->
  process_frame format_2f model t image = inl e ->
  main_frames format_2f model (pre ++ t :: post)
  = (concat (shown_and_written <$> frames), LoopRaised e).
Proof.
  intros Hpre Hopen Hread Hproc. unfold main_frames.
  rewrite (main_loop_passes _ _ _ _ _ Hpre). simpl.
  rewrite Hopen, Hread, Hproc. simpl. rewrite app_nil_r. reflexivity.
Qed.

Lemma main_frames_raise_witness :
  main_frames demo_format failing_detector
    ([] ++ demo_tick (-1) :: [demo_tick 27])
  = ([], LoopRaised (ModelRaised EngineError)).
Proof.
  apply (main_frames_raise demo_format failing_detector [] []
           (demo_tick (-1)) [demo_tick 27] demo_image).
  - constructor.
  - reflexivity.
  - reflexivity.
  - reflexivity.
Defined.
